(** * YALG extension: collection-and-delivery pipeline

    A shallow embedding of the parts of the browser extension that the
    specification talks about: the element identifier hash, the scroll and
    scan collection loop, the staggered fire-and-forget delivery with its
    counters, the token manager, the background handler for single elements
    and the messaging service.

    JavaScript strings are sequences of UTF-16 code units ([list Z]); numbers
    that the code forces to 32 bits are integers with the wrap-around written
    out; effects (timers, network calls, storage, messages) are recorded in
    explicit traces and states. *)

From Stdlib Require Import ZArith List String Ascii Lia Bool.
From stdpp Require Import gmap strings list fin_maps.

Local Open Scope Z_scope.

(** ** JavaScript primitives used by the sources *)

Module JS.

(** A JavaScript string: its UTF-16 code units, each in [0, 65536). *)
Definition jsstring := list Z.

(** [ToInt32]: reduce modulo 2^32 into [-2^31, 2^31). *)
Definition wrap32 (z : Z) : Z := (z + 2 ^ 31) mod 2 ^ 32 - 2 ^ 31.

(** [a << k] on numbers: the left operand goes through [ToInt32], the shift
    count is taken modulo 32 and the result is again a 32-bit integer. *)
Definition shl32 (a k : Z) : Z := wrap32 (Z.shiftl (wrap32 a) (Z.land k 31)).

(** [a & b] on numbers. *)
Definition and32 (a b : Z) : Z := wrap32 (Z.land (wrap32 a) (wrap32 b)).

(** [s.charCodeAt(i)] for an index inside the string (the loops below never
    leave it; outside, JavaScript yields NaN). *)
Definition charCodeAt (s : jsstring) (i : nat) : Z := nth i s 0.

(** [s.substring(0, n)]. *)
Definition substring0 (n : nat) (s : jsstring) : jsstring := take n s.

(** Decimal rendering of a non-negative integer, as code units; [fuel]
    bounds the number of digits. *)
Fixpoint decimal_go (fuel : nat) (n : Z) (acc : jsstring) : jsstring :=
  match fuel with
  | O => acc
  | S f =>
      let acc' := (48 + n mod 10) :: acc in
      if n / 10 =? 0 then acc' else decimal_go f (n / 10) acc'
  end.

(** [String(n)] for the non-negative integer [n]. *)
Definition numberToString (n : nat) : jsstring :=
  decimal_go (S n) (Z.of_nat n) [].

(** One digit of a radix-36 rendering: [0-9] then [a-z]. *)
Definition digit36 (d : Z) : ascii :=
  ascii_of_nat (Z.to_nat (if d <? 10 then 48 + d else 87 + d)).

Fixpoint toString36_go (fuel : nat) (n : Z) (acc : string) : string :=
  match fuel with
  | O => acc
  | S f =>
      let acc' := String (digit36 (n mod 36)) acc in
      if n / 36 =? 0 then acc' else toString36_go f (n / 36) acc'
  end.

(** [n.toString(36)] for a non-negative integer [n]; the fuel is the number
    of binary digits of [n], which bounds the number of radix-36 digits. *)
Definition toString36 (n : Z) : string :=
  toString36_go (S (Z.to_nat (Z.log2 n))) n EmptyString.

End JS.

(** ** IdentityGenerator: [generateElementId] *)

Module IdentityGenerator.
Import JS.

(** The body of the [for] loop of [generateElementId]:
    [hash = ((hash << 5) - hash) + char; hash = hash & hash]. *)
Definition hash_step (hash char : Z) : Z :=
  let hash := (shl32 hash 5 - hash) + char in
  and32 hash hash.

(** The loop [for (let i = 0; i < str.length; i++)], with [n] iterations
    left and the index at [i]. *)
Fixpoint hash_loop (str : jsstring) (n i : nat) (hash : Z) : Z :=
  match n with
  | O => hash
  | S n' => hash_loop str n' (S i) (hash_step hash (charCodeAt str i))
  end.

(** [generateElementId(htmlContent, index)] of content.js and of
    ContentScraper (the two bodies are the same text). *)
Definition generateElementId (htmlContent : jsstring) (index : nat) : string :=
  let str := substring0 500 htmlContent ++ numberToString index in
  let hash := hash_loop str (length str) 0%nat 0 in
  String.substring 0 12 (toString36 (Z.abs hash)).

(** The identifier as the specification words it: at most the first 500
    characters of the content followed by the decimal index, folded with
    [(hash << 5) - hash + charCode] under 32-bit wrap-around, absolute
    value, radix 36, at most 12 characters. *)
Definition fold32 (hash : Z) (charCode : Z) : Z :=
  wrap32 (Z.shiftl hash 5 - hash + charCode).

Definition id_spec (content : jsstring) (discoveryIndex : nat) : string :=
  let input := take 500 content ++ numberToString discoveryIndex in
  let hash := fold_left fold32 input 0 in
  String.substring 0 12 (toString36 (Z.abs hash)).

End IdentityGenerator.

(** ** Shared constants (constants.js) *)

Module Constants.

(** [SCRAPING_LIMITS]. *)
Definition MAX_SCROLL_ATTEMPTS : nat := 20.
Definition MAX_NO_NEW_ELEMENTS : nat := 3.

(** [DELAYS], in milliseconds. *)
Definition SCROLL_WAIT : Z := 2000.
Definition CONTENT_LOAD : Z := 1000.
Definition ELEMENT_PROCESSING_INTERVAL : Z := 100.

End Constants.

(** ** FeedCollector: the scan and scroll loops *)

Module FeedCollector.
Import JS.

(** One collected element. The [url] and [timestamp] fields of the source
    object are provenance only and take no part in the control flow. *)
Record ElementData := mkElementData {
  id : string;
  html : jsstring;
  elementIndex : nat;
  scrollAttempt : nat
}.

(** The live page as the loops see it. [view k] lists, for every element
    matched by the selector once [k] scroll actions have been performed,
    the [outerHTML] of its post container; [grew k] says whether the
    document got taller during the settle delay of scroll action [k];
    [active k] is the value of [isScrapingActive] when pass [k] starts
    (the cancel button clears it). *)
Record Page := mkPage {
  view : nat -> list jsstring;
  grew : nat -> bool;
  active : nat -> bool
}.

Inductive Event :=
| EvScan (matched newFound : nat)
| EvProgress (totalCollected scrollAttempt : nat)
| EvScroll
| EvWait (ms : Z).

Definition is_scan (e : Event) : bool :=
  match e with EvScan _ _ => true | _ => false end.
Definition is_scroll (e : Event) : bool :=
  match e with EvScroll => true | _ => false end.

Definition scan_passes (tr : list Event) : nat := length (List.filter is_scan tr).
Definition scroll_actions (tr : list Event) : nat := length (List.filter is_scroll tr).

(** The inner [for] loop over the matched elements, common to both
    collectors: an element is recorded when its identifier is not yet in
    [processedElementIds]. [index] is the position of the head of
    [elements] in the node list. *)
Fixpoint scan_elements (elements : list jsstring) (index : nat)
    (attempt : nat) (seen : gset string)
    : list ElementData * gset string :=
  match elements with
  | [] => ([], seen)
  | htmlContent :: rest =>
      let elementId := IdentityGenerator.generateElementId htmlContent index in
      if bool_decide (elementId ∈ seen) then
        scan_elements rest (S index) attempt seen
      else
        let elementData := mkElementData elementId htmlContent index (S attempt) in
        let '(more, seen') :=
          scan_elements rest (S index) attempt ({[ elementId ]} ∪ seen) in
        (elementData :: more, seen')
  end.

(** The local variables of both loops. *)
Record State := mkState {
  collectedElements : list ElementData;
  processedElementIds : gset string;
  noNewElementsCount : nat;
  scrollAttempts : nat
}.

Definition initial : State := mkState [] ∅ 0 0.

(** Both counters of a loop state are within the limits. *)
Definition within_limits (st : State) : Prop :=
  (scrollAttempts st <= 20)%nat /\ (noNewElementsCount st <= 3)%nat.

(** One of the two stop conditions has been reached. *)
Definition stopped (st : State) : Prop :=
  scrollAttempts st = 20%nat \/ noNewElementsCount st = 3%nat.

(** *** content.js: [collectHTMLElements] *)

Module Content.

Definition maxScrollAttempts : nat := 20.

(** The [while] condition. *)
Definition continues (p : Page) (st : State) : bool :=
  (scrollAttempts st <? maxScrollAttempts)%nat
  && (noNewElementsCount st <? 3)%nat
  && active p (scrollAttempts st).

(** One iteration of the [while] body: scan, report, update the empty
    pass counter, scroll, wait, count the attempt. *)
Definition pass (p : Page) (st : State) : State * list Event :=
  let elements := view p (scrollAttempts st) in
  let '(new, seen) :=
    scan_elements elements 0 (scrollAttempts st) (processedElementIds st) in
  let newElementsFound := length new in
  let collected := collectedElements st ++ new in
  let noNew :=
    if (newElementsFound =? 0)%nat then S (noNewElementsCount st) else 0%nat in
  (mkState collected seen noNew (S (scrollAttempts st)),
   [EvScan (length elements) newElementsFound;
    EvProgress (length collected) (S (scrollAttempts st));
    EvScroll;
    EvWait 2000]).

(** The [while] loop; [None] only when the fuel runs out. *)
Fixpoint loop (fuel : nat) (p : Page) (st : State)
    : option (State * list Event) :=
  match fuel with
  | O => None
  | S fuel' =>
      if continues p st then
        let '(st', evs) := pass p st in
        match loop fuel' p st' with
        | Some (final, tr) => Some (final, evs ++ tr)
        | None => None
        end
      else Some (st, [])
  end.

(** The collection phase of [collectHTMLElements], entered on the
    activity page. *)
Definition collectHTMLElements (fuel : nat) (p : Page)
    : option (State * list Event) :=
  loop fuel p initial.

End Content.

(** *** contentScraper.js: [ContentScraper.collectAllElements] *)

Module Scraper.
Import Constants.

(** [shouldContinueCollecting(noNewElementsCount)]. *)
Definition shouldContinueCollecting (currentScrollAttempt noNew : nat) : bool :=
  (currentScrollAttempt <? MAX_SCROLL_ATTEMPTS)%nat
  && (noNew <? MAX_NO_NEW_ELEMENTS)%nat.

(** [scrollAndWait()]: scroll, settle, and settle again when the
    document grew. *)
Definition scrollAndWait (p : Page) (k : nat) : list Event :=
  [EvScroll; EvWait SCROLL_WAIT]
  ++ (if grew p k then [EvWait CONTENT_LOAD] else []).

(** One iteration of the [while] body. *)
Definition pass (p : Page) (st : State) : State * list Event :=
  let elements := view p (scrollAttempts st) in
  let '(newElements, seen) :=
    scan_elements elements 0 (scrollAttempts st) (processedElementIds st) in
  let noNew :=
    if (length newElements =? 0)%nat then S (noNewElementsCount st) else 0%nat in
  let collected :=
    if (length newElements =? 0)%nat then collectedElements st
    else collectedElements st ++ newElements in
  let report :=
    [EvScan (length elements) (length newElements);
     EvProgress (length collected) (S (scrollAttempts st))] in
  if shouldContinueCollecting (scrollAttempts st) noNew then
    (mkState collected seen noNew (S (scrollAttempts st)),
     report ++ scrollAndWait p (scrollAttempts st))
  else
    (mkState collected seen noNew (scrollAttempts st), report).

Fixpoint loop (fuel : nat) (p : Page) (st : State)
    : option (State * list Event) :=
  match fuel with
  | O => None
  | S fuel' =>
      if shouldContinueCollecting (scrollAttempts st) (noNewElementsCount st) then
        let '(st', evs) := pass p st in
        match loop fuel' p st' with
        | Some (final, tr) => Some (final, evs ++ tr)
        | None => None
        end
      else Some (st, [])
  end.

(** [collectAllElements], entered on the activity page: the counters
    are reset and the set of identifiers cleared before the loop. *)
Definition collectAllElements (fuel : nat) (p : Page)
    : option (State * list Event) :=
  loop fuel p initial.

End Scraper.

(** A mock page: seven fixed posts, the same after every scroll, never
    growing, never cancelled. *)
Definition mock7 : Page :=
  mkPage (fun _ => map (fun k => [112; 48 + k]) [0; 1; 2; 3; 4; 5; 6])
         (fun _ => false) (fun _ => true).

End FeedCollector.


(** ** DeliveryCoordinator: staggered fire-and-forget delivery *)

Module Delivery.
Import Constants.
Import FeedCollector.

(** A pending [setTimeout]: the task is [processPost(element, index)] and it
    may not run before [due]. *)
Record Timer := mkTimer {
  due : Z;
  index : nat;
  element : ElementData
}.

(** [setTimeout(task, delay)] called at time [start]. *)
Definition setTimeout (start delay : Z) (i : nat) (e : ElementData) : Timer :=
  mkTimer (start + delay) i e.


(** [collectedElements.forEach((element, index) => setTimeout(..., index * interval))],
    the whole [forEach] running at time [start]; [i] is the index of the head
    of the list. *)
Fixpoint forEach_setTimeout (start interval : Z) (i : nat)
    (elements : list ElementData) : list Timer :=
  match elements with
  | [] => []
  | e :: rest =>
      setTimeout start (Z.of_nat i * interval) i e
      :: forEach_setTimeout start interval (S i) rest
  end.

(** The counters shown in a progress or completion message. *)
Record Snapshot := mkSnapshot {
  totalProcessed : nat;
  totalElements : nat;
  totalSuccessful : nat;
  totalFailed : nat
}.

(** What the page emits while delivering: [SCRAPING_PROGRESS] (together with
    the overlay update or the progress callback) and [SCRAPING_COMPLETE]
    (together with the completion popup or [onComplete]). *)
Inductive Event :=
| Progress (s : Snapshot)
| Complete (s : Snapshot).




(** The answer of the background page to one [PROCESS_SINGLE_HTML_ELEMENT]
    message as the sender sees it. *)
Record Response := mkResponse { success : bool }.

(** *** content.js: [processElementsAsync] *)

Module Content.

(** How the callback of [chrome.runtime.sendMessage] is entered:
    [chrome.runtime.lastError] set, or a response that may be [undefined]. *)
Inductive Reply :=
| LastError
| Responded (response : option Response).

(** The closure variables [totalSuccessful] and [totalFailed]. *)
Record Counters := mkCounters {
  successful : nat;
  failed : nat
}.

(** The callback given to [chrome.runtime.sendMessage] by [processPost], for
    a run over [n] collected elements. *)
Definition on_reply (n : nat) (c : Counters) (r : Reply) : Counters * list Event :=
  let c' :=
    match r with
    | LastError => mkCounters (successful c) (S (failed c))
    | Responded (Some resp) =>
        if success resp then mkCounters (S (successful c)) (failed c)
        else mkCounters (successful c) (S (failed c))
    | Responded None => mkCounters (successful c) (S (failed c))
    end in
  let completedCount := (successful c' + failed c')%nat in
  let progress :=
    Progress (mkSnapshot completedCount n (successful c') (failed c')) in
  if (completedCount =? n)%nat then
    (c', [progress; Complete (mkSnapshot n n (successful c') (failed c'))])
  else (c', [progress]).

(** The callbacks run one at a time, in the order in which the replies
    arrive; [replies] lists them in that order with the index of the item
    each belongs to. *)
Fixpoint run_replies (n : nat) (c : Counters) (replies : list (nat * Reply))
    : Counters * list Event :=
  match replies with
  | [] => (c, [])
  | (_, r) :: rest =>
      let '(c', evs) := on_reply n c r in
      let '(final, tr) := run_replies n c' rest in
      (final, evs ++ tr)
  end.

(** [processElementsAsync(collectedElements)] called at time [start]: the
    timers it leaves behind, and what the page emits as the replies come. *)
Definition schedule (start : Z) (collected : list ElementData) : list Timer :=
  forEach_setTimeout start 100 0 collected.

Definition processElementsAsync (collected : list ElementData)
    (replies : list (nat * Reply)) : Counters * list Event :=
  run_replies (length collected) (mkCounters 0 0) replies.

End Content.

(** *** linkedinNavigator.js: [DataProcessor] *)

Module DataProcessor.

(** The outcome of [await this.messageHandler.sendToBackground(...)]; the
    [MessageHandler] class is not part of the sources at hand, so the
    outcome of its call is an input. *)
Inductive Outcome :=
| Resolved (response : option Response)
| Rejected.

(** [this.processingStats]. *)
Record Stats := mkStats {
  statsSuccessful : nat;
  statsFailed : nat;
  processed : nat
}.

(** [resetStats()]. *)
Definition resetStats : Stats := mkStats 0 0 0.

(** [sendSingleElementToBackend(elementData)]: [true] only for a response
    with a true [success]; a rejection is caught and gives [false]. *)
Definition sendSingleElementToBackend (o : Outcome) : bool :=
  match o with
  | Resolved (Some resp) => success resp
  | Resolved None => false
  | Rejected => false
  end.

(** [processPost] from the point where the [await] resumes. *)
Definition processPost (totalElements : nat) (st : Stats) (o : Outcome)
    : Stats * list Event :=
  let st1 :=
    if sendSingleElementToBackend o
    then mkStats (S (statsSuccessful st)) (statsFailed st) (processed st)
    else mkStats (statsSuccessful st) (S (statsFailed st)) (processed st) in
  let st2 := mkStats (statsSuccessful st1) (statsFailed st1) (S (processed st1)) in
  let completedCount := processed st2 in
  let progress :=
    Progress (mkSnapshot completedCount totalElements
                (statsSuccessful st2) (statsFailed st2)) in
  if (completedCount =? totalElements)%nat then
    (st2, [progress;
           Complete (mkSnapshot totalElements totalElements
                       (statsSuccessful st2) (statsFailed st2))])
  else (st2, [progress]).

Fixpoint run_outcomes (totalElements : nat) (st : Stats)
    (outcomes : list (nat * Outcome)) : Stats * list Event :=
  match outcomes with
  | [] => (st, [])
  | (_, o) :: rest =>
      let '(st', evs) := processPost totalElements st o in
      let '(final, tr) := run_outcomes totalElements st' rest in
      (final, evs ++ tr)
  end.

(** [processAllElements]: the timers left behind at time [start]. *)
Definition schedule (start : Z) (collected : list ElementData) : list Timer :=
  forEach_setTimeout start ELEMENT_PROCESSING_INTERVAL 0 collected.

(** [processElementsAsync(collectedElements, progressCallback)]: nothing
    happens for an empty list; otherwise the statistics are reset and every
    post is fired. [st] is [this.processingStats] on entry. *)
Definition processElementsAsync (st : Stats) (collected : list ElementData)
    (outcomes : list (nat * Outcome)) : Stats * list Event :=
  match collected with
  | [] => (st, [])
  | _ :: _ => run_outcomes (length collected) resetStats outcomes
  end.

End DataProcessor.








End Delivery.


(** ** AuthProvider: token-manager.js *)

Module TokenManager.

Definition STORAGE_KEY : string := "auth_config".

(** [TOKEN_CHECK_INTERVAL = 5 * 60 * 1000], in milliseconds. *)
Definition TOKEN_CHECK_INTERVAL : Z := 5 * 60 * 1000.

(** The object kept under [auth_config]. A missing or [null] field is
    [None]. *)
Record AuthConfig := mkAuthConfig {
  authToken : option string;
  userId : option string;
  frontendUrl : string;
  backendUrl : string;
  tokenExpiry : option Z;
  lastValidated : option Z
}.

(** JavaScript truthiness of a string-valued field. *)
Definition truthy (s : option string) : bool :=
  match s with
  | Some v => negb (String.eqb v "")
  | None => false
  end.

(** The extension's local storage (the entries that hold an auth
    configuration) and the clock read by [Date.now()]. Storage calls are
    taken to succeed. *)
Record World := mkWorld {
  storage : gmap string AuthConfig;
  now : Z
}.

Record UserData := mkUserData { user_id : string }.

(** What [response.json()] gives: the parsed user object, or a rejection
    with the parser's message when the body is not JSON (an empty body
    included). *)
Inductive Body :=
| Json (user : UserData)
| NotJson (message : string).

(** What [fetch] gives: a network failure ([fetch] rejects with a message),
    or a response with a status and a body. *)
Inductive Fetched :=
| NetworkFailure (message : string)
| HttpResponse (status : Z) (body : Body).

(** The remote end for one call: what comes back and how long it took. *)
Record Remote := mkRemote {
  fetched : Fetched;
  elapsed : Z
}.

(** [response.ok]. *)
Definition ok (status : Z) : bool := (200 <=? status) && (status <=? 299).

Inductive Effect :=
| FetchUsersMe (token : string).

Inductive ErrorText :=
| NoTokenAvailable
| TokenExpiredOrInvalid
| ApiError (status : Z)
| Thrown (message : string).

(** The object returned by [validateToken]. *)
Record Validation := mkValidation {
  v_success : bool;
  v_userData : option UserData;
  v_error : option ErrorText;
  v_needsLogin : bool;
  v_status : option Z
}.

(** [getAuthConfig()]. *)
Definition getAuthConfig (w : World) : option AuthConfig :=
  storage w !! STORAGE_KEY.

(** [clearAuthConfig()]. *)
Definition clearAuthConfig (w : World) : World :=
  mkWorld (delete STORAGE_KEY (storage w)) (now w).

Definition with_lastValidated (c : AuthConfig) (t : Z) : AuthConfig :=
  mkAuthConfig (authToken c) (userId c) (frontendUrl c) (backendUrl c)
    (tokenExpiry c) (Some t).

(** [updateLastValidated()]. *)
Definition updateLastValidated (w : World) : World :=
  match getAuthConfig w with
  | Some config =>
      mkWorld (<[STORAGE_KEY := with_lastValidated config (now w)]> (storage w)) (now w)
  | None => w
  end.

(** Time passes while a call to the remote end is awaited. *)
Definition after_fetch (r : Remote) (w : World) : World :=
  mkWorld (storage w) (now w + elapsed r).

(** [error.message || 'Network error']. *)
Definition message_or_network_error (message : string) : string :=
  if String.eqb message "" then "Network error" else message.

(** [validateToken(silent)]. The result, the world afterwards and the remote
    calls made. *)
Definition validateToken (r : Remote) (w : World)
    : Validation * World * list Effect :=
  match getAuthConfig w with
  | None =>
      (mkValidation false None (Some NoTokenAvailable) true None, w, [])
  | Some config =>
      match authToken config with
      | Some token =>
          if negb (truthy (authToken config)) then
            (mkValidation false None (Some NoTokenAvailable) true None, w, [])
          else
            let w1 := after_fetch r w in
            match fetched r with
            | NetworkFailure message =>
                (mkValidation false None
                   (Some (Thrown (message_or_network_error message))) false None,
                 w1, [FetchUsersMe token])
            | HttpResponse status body =>
                if ok status then
                  match body with
                  | Json userData =>
                      (mkValidation true (Some userData) None false None,
                       updateLastValidated w1, [FetchUsersMe token])
                  | NotJson message =>
                      (mkValidation false None
                         (Some (Thrown (message_or_network_error message)))
                         false None,
                       w1, [FetchUsersMe token])
                  end
                else if (status =? 401) || (status =? 403) then
                  (mkValidation false None (Some TokenExpiredOrInvalid) true
                     (Some status),
                   clearAuthConfig w1, [FetchUsersMe token])
                else
                  (mkValidation false None (Some (ApiError status)) false None,
                   w1, [FetchUsersMe token])
            end
      | None =>
          (mkValidation false None (Some NoTokenAvailable) true None, w, [])
      end
  end.

Inductive StatusTag := no_token | valid | invalid.

(** The object returned by [getAuthStatus]. *)
Record AuthStatus := mkAuthStatus {
  isAuthenticated : bool;
  status : StatusTag;
  needsLogin : bool;
  config : option AuthConfig;
  userData : option UserData;
  error : option ErrorText
}.

(** [getAuthStatus()]. Neither [getAuthConfig] nor [validateToken] lets an
    exception escape, so the outer [catch] of the source is never entered. *)
Definition getAuthStatus (r : Remote) (w : World)
    : AuthStatus * World * list Effect :=
  match getAuthConfig w with
  | None => (mkAuthStatus false no_token true None None None, w, [])
  | Some cfg =>
      if negb (truthy (authToken cfg)) then
        (mkAuthStatus false no_token true None None None, w, [])
      else
        let lastValidated := default 0 (lastValidated cfg) in
        let timeSinceValidation := now w - lastValidated in
        if timeSinceValidation <? TOKEN_CHECK_INTERVAL then
          (mkAuthStatus true valid false (Some cfg) None None, w, [])
        else
          let '(validation, w', effects) := validateToken r w in
          if v_success validation then
            (mkAuthStatus true valid false (Some cfg) (v_userData validation) None,
             w', effects)
          else
            (mkAuthStatus false invalid (v_needsLogin validation) None None
               (v_error validation),
             w', effects)
  end.

(** A credential is cached when the stored configuration carries a
    non-empty token. *)
Definition cached (w : World) (c : AuthConfig) : Prop :=
  getAuthConfig w = Some c /\ truthy (authToken c) = true.

(** The remote answers that [validateToken] treats as a failure that is
    not the user's: a network error, a status outside 2xx other than 401
    and 403, or a 2xx answer whose body is not JSON. *)
Definition transient (f : Fetched) : Prop :=
  match f with
  | NetworkFailure _ => True
  | HttpResponse status (NotJson _) => status <> 401 /\ status <> 403
  | HttpResponse status (Json _) =>
      ok status = false /\ status <> 401 /\ status <> 403
  end.

(** A world with a credential validated at time [t0], read at time [t]. *)
Definition sample_config (t0 : Z) : AuthConfig :=
  mkAuthConfig (Some "tok") (Some "u1") "http://localhost:3400"
    "http://localhost:3000" None (Some t0).

Definition sample_world (t0 t : Z) : World :=
  mkWorld {[ STORAGE_KEY := sample_config t0 ]} t.

(** A remote end that answers 204 No Content after 10 ms: a 2xx status
    with an empty body, on which [response.json()] rejects. *)
Definition empty_204 : Remote :=
  mkRemote (HttpResponse 204 (NotJson "Unexpected end of JSON input")) 10.

(** A remote end that accepts the token after 10 ms. *)
Definition sample_remote : Remote :=
  mkRemote (HttpResponse 200 (Json (mkUserData "u1"))) 10.

End TokenManager.


(** ** Background worker: [handleSingleHTMLElement] *)

Module Background.
Import FeedCollector.

(** One cookie of the frontend's domain, as [chrome.cookies.getAll] returns
    it. *)
Record Cookie := mkCookie { value : string }.

(** An HTTP exchange seen from the worker: [fetch] rejects, or a status
    comes back (the body being JSON or not). *)
Inductive Http :=
| NetworkFailure
| Status (code : Z) (json : bool).

Definition ok (code : Z) : bool := (200 <=? code) && (code <=? 299).

(** What the outside world does while one element is handled: the cookies
    named [accessToken] at that moment, the answer of [/users/me] and the
    answer of [/posts/queue]. *)
Record Env := mkEnv {
  cookies : list Cookie;
  users_me : Http;
  posts_queue : Http
}.

Inductive Effect :=
| CookiesGetAll
| FetchUsersMe (token : string)
| PostQueue (token : string) (elementId : string).

Definition is_credential_read (e : Effect) : bool :=
  match e with CookiesGetAll => true | _ => false end.

Definition credential_reads (tr : list Effect) : nat :=
  length (List.filter is_credential_read tr).

(** The response passed to [sendResponse]. *)
Record Response := mkResponse {
  success : bool;
  elementId : string
}.

(** [handleSingleHTMLElement(elementData, sendResponse)]: any exception
    ends in the [catch], which answers [success: false]. *)
Definition handleSingleHTMLElement (env : Env) (elementData : ElementData)
    : Response * list Effect :=
  let failure := mkResponse false (id elementData) in
  match cookies env with
  | [] => (failure, [CookiesGetAll])
  | c :: _ =>
      if String.eqb (value c) "" then (failure, [CookiesGetAll])
      else
        let authToken := value c in
        match users_me env with
        | NetworkFailure => (failure, [CookiesGetAll; FetchUsersMe authToken])
        | Status code json =>
            if negb (ok code && json) then
              (failure, [CookiesGetAll; FetchUsersMe authToken])
            else
              let sent :=
                [CookiesGetAll; FetchUsersMe authToken;
                 PostQueue authToken (id elementData)] in
              match posts_queue env with
              | NetworkFailure => (failure, sent)
              | Status code' json' =>
                  if ok code' && json' then
                    (mkResponse true (id elementData), sent)
                  else (failure, sent)
              end
        end
  end.

(** The worker during one delivery run: one
    [PROCESS_SINGLE_HTML_ELEMENT] message per delivered item, each handled
    in the environment of its moment. *)
Fixpoint deliver (items : list (Env * ElementData)) : list Response * list Effect :=
  match items with
  | [] => ([], [])
  | (env, e) :: rest =>
      let '(r, effs) := handleSingleHTMLElement env e in
      let '(rs, tr) := deliver rest in
      (r :: rs, effs ++ tr)
  end.

(** A logged-in user and a healthy backend. *)
Definition healthy : Env :=
  mkEnv [mkCookie "tok"] (Status 200 true) (Status 200 true).

Definition post (k : nat) : ElementData :=
  mkElementData "p" [112] k 1.

End Background.

(** ** CrossContextMessenger: messaging.js *)

Module MessageService.

(** What a receiver passes to [sendResponse]: a payload of its own, or the
    object [{ error: message }] built by the listener wrapper. *)
Inductive Response :=
| Payload (data : string)
| ErrorResponse (message : string).

(** What the handler given to [addListener] does with a message that passes
    the filter. *)
Inductive Handler :=
| Returns (sent : option Response)
| Throws (message : string)
| PromiseResolves (response : option Response)
| PromiseRejects (message : string).

(** [wrappedHandler] of [addListener]: the value that reaches
    [sendResponse], if any. *)
Definition wrappedHandler (h : Handler) : option Response :=
  match h with
  | Returns sent => sent
  | Throws message => Some (ErrorResponse message)
  | PromiseResolves response => response
  | PromiseRejects message => Some (ErrorResponse message)
  end.

(** How one [_performSend] ends: the callback runs after [latency] with a
    response, or with [chrome.runtime.lastError] set, or never. *)
Inductive Send :=
| Answered (latency : Z) (response : Response)
| Failed (latency : Z) (message : string)
| Silent.

(** A receiver reached after [latency] and running handler [h]. When nothing
    is passed to [sendResponse] the sender gets no answer. *)
Definition received_by (latency : Z) (h : Handler) : Send :=
  match wrappedHandler h with
  | Some response => Answered latency response
  | None => Silent
  end.

Inductive Error :=
| SendError (message : string)
| Timeout (ms : Z).

Inductive Settled :=
| Fulfilled (response : Response)
| RejectedWith (e : Error).

(** [Promise.race([_performSend(...), _createTimeout(timeout)])]: the send
    wins when its callback runs before the timeout elapses. *)
Definition race (timeout : Z) (s : Send) : Settled :=
  match s with
  | Answered latency response =>
      if latency <? timeout then Fulfilled response
      else RejectedWith (Timeout timeout)
  | Failed latency message =>
      if latency <? timeout then RejectedWith (SendError message)
      else RejectedWith (Timeout timeout)
  | Silent => RejectedWith (Timeout timeout)
  end.

Record Options := mkOptions {
  timeout : option Z;
  retries : option nat
}.

Definition no_options : Options := mkOptions None None.

(** The destructuring defaults [{ timeout = 5000, retries = 1 }]. *)
Definition timeout_of (o : Options) : Z := default 5000 (timeout o).
Definition retries_of (o : Options) : nat := default 1%nat (retries o).

Inductive Event :=
| Sent (attempt : nat)
| Waited (ms : Z).

Definition is_sent (e : Event) : bool :=
  match e with Sent _ => true | _ => false end.

Definition sends (tr : list Event) : nat := length (List.filter is_sent tr).

Fixpoint waits (tr : list Event) : list Z :=
  match tr with
  | [] => []
  | Waited ms :: rest => ms :: waits rest
  | Sent _ :: rest => waits rest
  end.

(** The result of [_sendMessage]: the response, or the last error thrown
    ([undefined] when the loop never ran). *)
Inductive Result :=
| Return (response : Response)
| Throw (lastError : option Error).

(** The [for] loop of [_sendMessage], with [left] iterations to go and the
    loop variable at [attempt]; [world attempt] is how the send of that
    attempt ends. *)
Fixpoint attempts (left attempt retries : nat) (timeout : Z)
    (world : nat -> Send) (lastError : option Error) : Result * list Event :=
  match left with
  | O => (Throw lastError, [])
  | S left' =>
      match race timeout (world attempt) with
      | Fulfilled response => (Return response, [Sent attempt])
      | RejectedWith e =>
          let pause :=
            if (attempt <? retries - 1)%nat
            then [Waited (1000 * (Z.of_nat attempt + 1))] else [] in
          let '(res, tr) :=
            attempts left' (S attempt) retries timeout world (Some e) in
          (res, Sent attempt :: pause ++ tr)
      end
  end.

(** [_sendMessage(message, target, options)]. *)
Definition _sendMessage (options : Options) (world : nat -> Send)
    : Result * list Event :=
  attempts (retries_of options) 0 (retries_of options) (timeout_of options)
    world None.

(** A world in which the first send fails with [lastError] and the second
    reaches a handler that throws after 20 ms. *)
Definition flaky_then_handler_error (attempt : nat) : Send :=
  match attempt with
  | O => Failed 3 "Could not establish connection"
  | _ => received_by 20 (Throws "not authenticated")
  end.

(** A communication failure: the send itself failed or timed out. *)
Definition communication_failure (s : Settled) : Prop :=
  match s with RejectedWith _ => True | Fulfilled _ => False end.

(** *** [sendToContent] *)

(** How [chrome.tabs.sendMessage(tabId, message)] settles, if it does. *)
Inductive TabSend :=
| TabResolves (response : option Response)
| TabRejects (message : string)
| TabNeverSettles.

Inductive TabEvent :=
| TabsSendMessage (tabId : Z) (type : string) (data : string).

(** How the [async] call ends: it returns, it rethrows the error of the
    send, or it stays pending with the send. *)
Inductive TabResult :=
| TabReturn (response : option Response)
| TabThrow (message : string)
| TabPending.

(** [sendToContent(tabId, type, data, options)]. *)
Definition sendToContent (tabId : Z) (type data : string) (options : Options)
    (world : TabSend) : TabResult * list TabEvent :=
  match world with
  | TabResolves response => (TabReturn response, [TabsSendMessage tabId type data])
  | TabRejects message => (TabThrow message, [TabsSendMessage tabId type data])
  | TabNeverSettles => (TabPending, [TabsSendMessage tabId type data])
  end.

(** The call made by [SyncService.initiateScraping(tabId, config)]. *)
Definition initiateScraping_send (tabId : Z) (config : string) (world : TabSend)
    : TabResult * list TabEvent :=
  sendToContent tabId "START_SCRAPING" config
    (mkOptions (Some 10000) (Some 2%nat)) world.

End MessageService.


(** ** FeedCollector: what the loops keep true *)

Module FeedCollectorInvariants.
Import FeedCollector.


(** The mock page on which the user cancels during the first settle delay:
    the flag is set for the first pass only. *)
Definition cancelled_after_first_pass : Page :=
  mkPage (view mock7) (grew mock7) (fun k => (k =? 0)%nat).

End FeedCollectorInvariants.


(** ** Delivery: totals and the sequence of progress reports *)

Module DeliveryTotals.
Import Delivery.




End DeliveryTotals.


(** ** AuthProvider: writing the credential, the periodic check, the bridge *)

Module AuthFlows.
Import TokenManager.

(** The values [getURL] falls back on (the development configuration of
    constants.js has the same ones). *)
Definition FRONTEND_BASE : string := "http://localhost:3400".
Definition BACKEND_BASE : string := "http://localhost:3000".

(** The argument of [setAuthConfig]. *)
Record ConfigInput := mkConfigInput {
  in_authToken : option string;
  in_userId : option string;
  in_frontendUrl : option string;
  in_backendUrl : option string;
  in_tokenExpiry : option Z
}.

(** [s || d] for a string-valued [s]. *)
Definition string_or (s : option string) (d : string) : string :=
  match s with
  | Some v => if String.eqb v "" then d else v
  | None => d
  end.

(** [n || null] for a number-valued [n]. *)
Definition number_or_null (n : option Z) : option Z :=
  match n with
  | Some v => if v =? 0 then None else Some v
  | None => None
  end.

(** [setAuthConfig(config)]: the stored object is stamped with the
    current time. *)
Definition setAuthConfig (config : ConfigInput) (w : World) : World :=
  let authConfig :=
    mkAuthConfig (in_authToken config) (in_userId config)
      (string_or (in_frontendUrl config) FRONTEND_BASE)
      (string_or (in_backendUrl config) BACKEND_BASE)
      (number_or_null (in_tokenExpiry config))
      (Some (now w)) in
  mkWorld (<[STORAGE_KEY := authConfig]> (storage w)) (now w).

(** [isAuthenticated()]. *)
Definition isAuthenticated (w : World) : bool :=
  match getAuthConfig w with
  | Some config => truthy (authToken config) && truthy (userId config)
  | None => false
  end.

(** The callback that [startTokenValidation] runs every
    [TOKEN_CHECK_INTERVAL]. *)
Definition validation_tick (r : Remote) (w : World) : World * list Effect :=
  if isAuthenticated w then
    let '(_, w', effects) := validateToken r w in (w', effects)
  else (w, []).

(** The same storage read at a later (or any other) time. *)
Definition at_time (t : Z) (w : World) : World := mkWorld (storage w) t.

(** *** frontend-auth-bridge.js *)

(** The payload of an [AUTH_SUCCESS] message. *)
Record AuthData := mkAuthData {
  accessToken : option string;
  ad_userId : option string;
  ad_frontendUrl : option string;
  ad_backendUrl : option string;
  expiresAt : option Z
}.

Inductive BridgeMessage :=
| AUTH_SUCCESS (data : option AuthData)
| AUTH_LOGOUT
| AUTH_REQUEST
| OtherType (type : string).

(** What [notifyPopup] sends. *)
Inductive Notice :=
| NotifyAuthSuccess
| NotifyAuthLogout.

(** [FRONTEND_ORIGINS]. *)
Definition FRONTEND_ORIGINS : list string :=
  ["http://localhost:3400"; "https://localhost:3400"].

(** [handleAuthSuccess(authData)]. *)
Definition handleAuthSuccess (authData : option AuthData) (w : World)
    : World * list Notice :=
  match authData with
  | None => (w, [])
  | Some d =>
      if negb (truthy (accessToken d)) || negb (truthy (ad_userId d)) then (w, [])
      else
        (setAuthConfig
           (mkConfigInput (accessToken d) (ad_userId d) (ad_frontendUrl d)
              (ad_backendUrl d) (expiresAt d)) w,
         [NotifyAuthSuccess])
  end.

(** [handleAuthLogout()]. *)
Definition handleAuthLogout (w : World) : World * list Notice :=
  (clearAuthConfig w, [NotifyAuthLogout]).

(** [handleFrontendMessage(event)]: the [postMessage] listener. *)
Definition handleFrontendMessage (origin : string) (message : BridgeMessage)
    (w : World) : World * list Notice :=
  if negb (bool_decide (origin ∈ FRONTEND_ORIGINS)) then (w, [])
  else
    match message with
    | AUTH_SUCCESS data => handleAuthSuccess data w
    | AUTH_LOGOUT => handleAuthLogout w
    | _ => (w, [])
    end.

(** What [handleExternalMessage] passes to [sendResponse]. *)
Inductive BridgeResponse :=
| SuccessTrue
| StatusResponse (s : AuthStatus).

(** [handleExternalMessage(message, sender, sendResponse)]: the listener
    for messages from the website. *)
Definition handleExternalMessage (message : BridgeMessage) (r : Remote) (w : World)
    : World * list Notice * option BridgeResponse * list Effect :=
  match message with
  | AUTH_SUCCESS data =>
      let '(w', notices) := handleAuthSuccess data w in
      (w', notices, Some SuccessTrue, [])
  | AUTH_LOGOUT =>
      let '(w', notices) := handleAuthLogout w in
      (w', notices, Some SuccessTrue, [])
  | AUTH_REQUEST =>
      let '(s, w', effects) := getAuthStatus r w in
      (w', [], Some (StatusResponse s), effects)
  | OtherType _ => (w, [], None, [])
  end.

(** A stored configuration with a token but no user. *)
Definition token_only_world (t : Z) : World :=
  mkWorld {[ STORAGE_KEY :=
    mkAuthConfig (Some "tok") None FRONTEND_BASE BACKEND_BASE None (Some 0) ]} t.

Definition login_data : AuthData :=
  mkAuthData (Some "fresh") (Some "u7") None None None.

End AuthFlows.


(** ** Background worker: answers and the [CONFIGURE] message *)

Module BackgroundMore.
Import FeedCollector Background.

(** An exchange that lets [handleSingleHTMLElement] go on: a 2xx status
    with a body that parses. *)
Definition accepted (h : Http) : bool :=
  match h with
  | Status code json => ok code && json
  | NetworkFailure => false
  end.

(** The token the worker can use: the value of the first cookie returned,
    when there is one and it is not empty. *)
Definition usable_token (env : Env) : option string :=
  match cookies env with
  | c :: _ => if String.eqb (value c) "" then None else Some (value c)
  | [] => None
  end.

(** The network requests among the effects. *)
Definition is_request (e : Effect) : bool :=
  match e with CookiesGetAll => false | _ => true end.

Definition requests (tr : list Effect) : list Effect := List.filter is_request tr.

(** The payload of a [CONFIGURE] message (and of [START_SYNC], which stores
    the same fields in the same way). *)
Record ConfigureData := mkConfigureData {
  cd_authToken : option string;
  cd_userId : option string;
  cd_frontendUrl : option string;
  cd_backendUrl : option string;
  cd_apiBaseUrl : option string
}.

(** The [auth_config] object written by the [CONFIGURE] branch of the
    external listener and by [handleStartSync]. *)
Definition configured (data : ConfigureData) (now : Z) : TokenManager.AuthConfig :=
  TokenManager.mkAuthConfig (cd_authToken data) (cd_userId data)
    (AuthFlows.string_or (cd_frontendUrl data) AuthFlows.FRONTEND_BASE)
    (AuthFlows.string_or (cd_backendUrl data)
       (AuthFlows.string_or (cd_apiBaseUrl data) AuthFlows.BACKEND_BASE))
    None (Some now).

(** The effect of a [CONFIGURE] message on the stored credential. *)
Definition configure (data : ConfigureData) (w : TokenManager.World)
    : TokenManager.World :=
  TokenManager.mkWorld
    (<[TokenManager.STORAGE_KEY := configured data (TokenManager.now w)]>
       (TokenManager.storage w))
    (TokenManager.now w).

(** A second cookie does not help when the first one is empty. *)
Definition empty_first_cookie : Env :=
  mkEnv [mkCookie ""; mkCookie "tok"] (Status 200 true) (Status 200 true).

End BackgroundMore.


(** ** CrossContextMessenger: exhausted retries and the fan-out *)

Module MessageServiceMore.
Import MessageService.

(** The error with which a race ended, if it did not bring a response. *)
Definition error_of (s : Settled) : option Error :=
  match s with
  | RejectedWith e => Some e
  | Fulfilled _ => None
  end.

(** The time spent in the pauses of a trace. *)
Definition total_wait (tr : list Event) : Z := foldr Z.add 0 (waits tr).

(** How [chrome.tabs.query] ends. *)
Inductive Query :=
| Tabs (ids : list Z)
| QueryRejects (message : string).

(** An entry of the array that [Promise.allSettled] resolves to. *)
Inductive SettledEntry :=
| fulfilled (value : option Response)
| rejected (reason : string).

(** How [sendToAllContent] ends. *)
Inductive AllResult :=
| AllReturn (responses : list SettledEntry)
| AllThrow (message : string)
| AllPending.

(** [Promise.allSettled(promises)]: it settles once every promise has. *)
Fixpoint allSettled (results : list TabResult) : option (list SettledEntry) :=
  match results with
  | [] => Some []
  | TabReturn response :: rest =>
      option_map (cons (fulfilled response)) (allSettled rest)
  | TabThrow message :: rest =>
      option_map (cons (rejected message)) (allSettled rest)
  | TabPending :: _ => None
  end.

(** [sendToAllContent(type, data, options)]; [world tabId] is how the send
    to that tab settles. *)
Definition sendToAllContent (type data : string) (options : Options)
    (query : Query) (world : Z -> TabSend) : AllResult * list TabEvent :=
  match query with
  | QueryRejects message => (AllThrow message, [])
  | Tabs ids =>
      let calls :=
        map (fun tabId => sendToContent tabId type data options (world tabId)) ids in
      let events := concat (map snd calls) in
      match allSettled (map fst calls) with
      | Some responses => (AllReturn responses, events)
      | None => (AllPending, events)
      end
  end.

(** The entry that the send to one tab contributes. *)
Definition entry_of (s : TabSend) : option SettledEntry :=
  match s with
  | TabResolves response => Some (fulfilled response)
  | TabRejects message => Some (rejected message)
  | TabNeverSettles => None
  end.

(** Three tabs, the second without a content script. *)
Definition second_tab_unreachable (tabId : Z) : TabSend :=
  if tabId =? 12 then TabRejects "Receiving end does not exist"
  else TabResolves (Some (Payload "ok")).

(** A receiver that never answers. *)
Definition nobody_answers (attempt : nat) : Send := Silent.

End MessageServiceMore.


(** ** Transport: apiClient.js *)

Module ApiClient.

(** How one [fetch] ends: it rejects (network error), it answers with a
    status and a body that parses or not, or it never settles. *)
Inductive Fetch :=
| FetchRejects (latency : Z) (message : string)
| Responds (latency : Z) (status : Z) (json : bool)
| NoAnswer.

(** The errors that reach the [catch] of [makeRequest]: an [ApiError] with
    its status (0 for the timeout), or another exception (the [TypeError]
    of a failed [fetch], the [SyntaxError] of a body that does not
    parse). *)
Inductive Error :=
| ApiError (status : Z)
| OtherError (message : string).

(** [response.ok]. *)
Definition ok (status : Z) : bool := (200 <=? status) && (status <=? 299).


(** [_shouldRetry(error)]. *)
Definition _shouldRetry (e : Error) : bool :=
  match e with
  | ApiError status => negb ((400 <=? status) && (status <? 500))
  | OtherError _ => true
  end.

(** The [try] block of one attempt: the race against the timeout, the check
    of [response.ok], the parsing of the body. *)
Definition attempt_once (timeout : Z) (f : Fetch) : Error + unit :=
  match f with
  | FetchRejects latency message =>
      if latency <? timeout then inl (OtherError message) else inl (ApiError 0)
  | Responds latency status json =>
      if latency <? timeout then
        if ok status then
          if json then inr tt else inl (OtherError "Unexpected token")
        else inl (ApiError status)
      else inl (ApiError 0)
  | NoAnswer => inl (ApiError 0)
  end.

(** [this.options] merged with the options of the call. *)
Record Config := mkConfig {
  timeout : Z;
  retries : nat;
  retryDelay : Z
}.


(** The configuration [healthCheck] runs with. *)
Definition health_config : Config := mkConfig 5000 1 1000.

Inductive Event :=
| Requested (attempt : nat)
| Waited (ms : Z).

Definition is_request (e : Event) : bool :=
  match e with Requested _ => true | _ => false end.

Definition requests (tr : list Event) : nat := length (List.filter is_request tr).

Fixpoint waits (tr : list Event) : list Z :=
  match tr with
  | [] => []
  | Waited ms :: rest => ms :: waits rest
  | Requested _ :: rest => waits rest
  end.

(** How [makeRequest] ends: with the parsed result, or throwing the last
    error ([undefined] when the loop never ran). *)
Inductive Result :=
| Return
| Throw (lastError : option Error).

(** The [for] loop of [makeRequest] with [left] iterations to go. *)
Fixpoint attempts (left attempt : nat) (cfg : Config) (world : nat -> Fetch)
    (lastError : option Error) : Result * list Event :=
  match left with
  | O => (Throw lastError, [])
  | S left' =>
      match attempt_once (timeout cfg) (world attempt) with
      | inr _ => (Return, [Requested attempt])
      | inl e =>
          if (attempt <? retries cfg - 1)%nat && _shouldRetry e then
            let delay := retryDelay cfg * 2 ^ Z.of_nat attempt in
            let '(res, tr) := attempts left' (S attempt) cfg world (Some e) in
            (res, Requested attempt :: Waited delay :: tr)
          else (Throw (Some e), [Requested attempt])
      end
  end.





End ApiClient.


(** ** SyncService: sessions, history and statistics *)

Module SyncService.

(** [SYNC_PHASES] as far as the service sets them. *)
Inductive Phase := INITIALIZING | COMPLETED | ERROR.

(** A sync session object. Its [config] and its [stats] (written only by
    [handleSyncProgress]) are left out. [result] is the acknowledgement of
    the page or the completion data, kept as text. *)
Record Session := mkSession {
  id : string;
  startTime : Z;
  endTime : option Z;
  phase : Phase;
  completed : bool;
  error : option string;
  result : option string
}.

(** The statistics kept in storage under [syncStats]. *)
Record SyncStats := mkSyncStats {
  totalPosts : Z;
  lastSync : option string;
  totalSyncs : Z;
  successfulSyncs : Z;
  failedSyncs : Z
}.

(** The service. Session objects are shared between [currentSync] and
    [syncHistory], so they live in a heap and are named by their address;
    [stored] is the value under [syncStats], if any. *)
Record Service := mkService {
  heap : gmap nat Session;
  currentSync : option nat;
  syncHistory : list nat;
  stored : option SyncStats
}.

(** The service as the constructor leaves it. *)
Definition new_service : Service := mkService ∅ None [] None.

(** The session [this.currentSync] points to. *)
Definition current (s : Service) : option Session :=
  match currentSync s with
  | Some a => heap s !! a
  | None => None
  end.

(** [this.currentSync && !this.currentSync.completed]. *)
Definition active (s : Service) : bool :=
  match current s with
  | Some session => negb (completed session)
  | None => false
  end.

(** Assignments to fields of [this.currentSync]. *)
Definition update_current (f : Session -> Session) (s : Service) : Service :=
  match currentSync s with
  | Some a => mkService (alter f a (heap s)) (currentSync s) (syncHistory s) (stored s)
  | None => s
  end.

Definition fail_with (message : string) (now : Z) (session : Session) : Session :=
  mkSession (id session) (startTime session) (Some now) (phase session) true
    (Some message) (result session).

(** [createSyncSession(config)]. *)
Definition createSyncSession (sessionId : string) (now : Z) : Session :=
  mkSession sessionId now None INITIALIZING false None None.

(** An address not yet used. *)
Definition new_address (s : Service) : nat := fresh (dom (heap s)).

(** How [ensureLinkedInTab] ends: an active LinkedIn tab was found, a new
    tab was created and loaded, or some step failed (the query, the
    creation, the 30 s load timeout). *)
Inductive TabOutcome :=
| ExistingTab (tabId : Z)
| CreatedTab (tabId : Z)
| TabFailure.

(** How the [START_SCRAPING] message sent by [initiateScraping] ends; the
    response carries [success] and possibly [error]. *)
Inductive StartOutcome :=
| Acknowledged (success : bool) (errorText : option string)
| NoResponse
| SendRejects (message : string).

(** What one call of [startSync] meets: the clock when the session is
    created and when the call ends, the session id drawn, and how the two
    awaited steps end. *)
Record Env := mkEnv {
  startedAt : Z;
  finishedAt : Z;
  sessionId : string;
  tabs : TabOutcome;
  start : StartOutcome
}.

Inductive Outcome :=
| Returns (response : string)
| Throws (message : string).

(** [ensureLinkedInTab()]. *)
Definition ensureLinkedInTab (t : TabOutcome) : string + Z :=
  match t with
  | ExistingTab tabId => inr tabId
  | CreatedTab tabId => inr tabId
  | TabFailure => inl "Could not access LinkedIn. Please ensure you are logged in."
  end.

(** [initiateScraping(tabId, config)]. *)
Definition initiateScraping (o : StartOutcome) : string + string :=
  let failed (message : string) :=
    inl (String.append "Scraping initiation failed: " message) in
  match o with
  | Acknowledged true _ => inr "success"
  | Acknowledged false (Some e) =>
      failed (if String.eqb e "" then "Failed to start scraping" else e)
  | Acknowledged false None => failed "Failed to start scraping"
  | NoResponse => failed "Failed to start scraping"
  | SendRejects message => failed message
  end.

(** [startSync(config)] up to its first [await]: either the call is
    refused, and the [catch] block runs at once, or a session is created,
    stored in [this.currentSync] and kept in the local [syncSession], here
    the address returned. *)
Definition startSync_enter (env : Env) (s : Service)
    : (Outcome * Service) + (nat * Service) :=
  if active s then
    inl (Throws "Sync already in progress",
         update_current (fail_with "Sync already in progress" (finishedAt env)) s)
  else
    let a := new_address s in
    inr (a,
         mkService (<[a := createSyncSession (sessionId env) (startedAt env)]> (heap s))
           (Some a) (syncHistory s) (stored s)).

(** The rest of [startSync], run on the service as it is when the awaited
    steps have ended. Success writes to [syncSession], failure to
    [this.currentSync]. *)
Definition startSync_resume (env : Env) (syncSession : nat) (s : Service)
    : Outcome * Service :=
  let failure (message : string) :=
    (Throws message, update_current (fail_with message (finishedAt env)) s) in
  match ensureLinkedInTab (tabs env) with
  | inl message => failure message
  | inr tabId =>
      match initiateScraping (start env) with
      | inl message => failure message
      | inr response =>
          let finish (session : Session) :=
            mkSession (id session) (startTime session) (Some (finishedAt env))
              (phase session) true (error session) (Some response) in
          (Returns response,
           mkService (alter finish syncSession (heap s)) (currentSync s)
             (syncHistory s ++ [syncSession]) (stored s))
      end
  end.

(** [startSync(config)] when nothing else runs during its awaits. *)
Definition startSync (env : Env) (s : Service) : Outcome * Service :=
  match startSync_enter env s with
  | inl refused => refused
  | inr (syncSession, s1) => startSync_resume env syncSession s1
  end.

(** How the send of [STOP_SCRAPING] to one tab ends. *)
Inductive StopOutcome := Stopped | StopFails.

Inductive Event :=
| StopScraping (tabId : Z).

(** [cancelSync()] when nothing else runs during its awaits;
    [linkedinTabs] are the tabs the query returns, each with the outcome of
    the message sent to it, or [None] when the query itself fails. *)
Definition cancelSync (now : Z) (linkedinTabs : option (list (Z * StopOutcome)))
    (s : Service) : bool * Service * list Event :=
  if negb (active s) then (false, s, [])
  else
    match linkedinTabs with
    | None => (false, s, [])
    | Some found =>
        let cancel (session : Session) :=
          mkSession (id session) (startTime session) (Some now) ERROR true
            (Some "Cancelled by user") (result session) in
        (true, update_current cancel s, map (fun t => StopScraping t.1) found)
    end.

(** An entry of the list [getSyncHistory] returns (its copy of [stats] is
    left out, as in [Session]). *)
Record HistoryEntry := mkHistoryEntry {
  h_id : string;
  h_startTime : Z;
  h_endTime : option Z;
  h_duration : option Z;
  h_phase : Phase;
  h_completed : bool;
  h_error : option string
}.

(** [session.endTime ? session.endTime - session.startTime : null]. *)
Definition duration (session : Session) : option Z :=
  match endTime session with
  | Some e => if e =? 0 then None else Some (e - startTime session)
  | None => None
  end.

Definition entry_of (session : Session) : HistoryEntry :=
  mkHistoryEntry (id session) (startTime session) (endTime session)
    (duration session) (phase session) (completed session) (error session).

(** [array.slice(-limit)] for a non-negative [limit]: the last [limit]
    elements, and the whole array when [limit] is 0 (since [-0] is 0). *)
Definition slice_last {A} (limit : nat) (l : list A) : list A :=
  match limit with
  | O => l
  | _ => drop (length l - limit) l
  end.

(** [getSyncHistory(limit)]. *)
Definition getSyncHistory (limit : nat) (s : Service) : list HistoryEntry :=
  omap (fun a => entry_of <$> heap s !! a) (slice_last limit (syncHistory s)).

(** *** Statistics *)

(** [getSyncStats()]: the stored value, or zeros. *)
Definition getSyncStats (s : Service) : SyncStats :=
  default (mkSyncStats 0 None 0 0 0) (stored s).

(** The object passed to [updateSyncStats]: the fields it sets. *)
Record StatsUpdate := mkStatsUpdate {
  u_totalPosts : option Z;
  u_lastSync : option string;
  u_totalSyncs : option Z;
  u_successfulSyncs : option Z;
  u_failedSyncs : option Z
}.

(** [updateSyncStats(stats)]: [{ ...currentStats, ...stats }]. *)
Definition updateSyncStats (u : StatsUpdate) (s : Service) : Service :=
  let c := getSyncStats s in
  mkService (heap s) (currentSync s) (syncHistory s)
    (Some (mkSyncStats
             (default (totalPosts c) (u_totalPosts u))
             (match u_lastSync u with Some d => Some d | None => lastSync c end)
             (default (totalSyncs c) (u_totalSyncs u))
             (default (successfulSyncs c) (u_successfulSyncs u))
             (default (failedSyncs c) (u_failedSyncs u)))).

(** [handleSyncCompletion(completionData)]; [date] is [new Date().toISOString()]
    and [posts] is [completionData.stats.totalPosts] when present. *)
Definition handleSyncCompletion (now : Z) (date : string) (data : string)
    (posts : option Z) (s : Service) : Service :=
  match current s with
  | None => s
  | Some _ =>
      let finish (session : Session) :=
        mkSession (id session) (startTime session) (Some now) COMPLETED true
          (error session) (Some data) in
      let s1 := update_current finish s in
      let c := getSyncStats s1 in
      let failed :=
        match current s1 with
        | Some session => AuthFlows.string_or (error session) ""
        | None => ""
        end in
      updateSyncStats
        (if String.eqb failed "" then
           mkStatsUpdate posts (Some date) (Some (totalSyncs c + 1))
             (Some (successfulSyncs c + 1)) None
         else
           mkStatsUpdate posts (Some date) (Some (totalSyncs c + 1))
             None (Some (failedSyncs c + 1)))
        s1
  end.

(** [handleSyncError(error)]. *)
Definition handleSyncError (now : Z) (date : string) (errorMessage : string)
    (s : Service) : Service :=
  match current s with
  | None => s
  | Some _ =>
      let fail (session : Session) :=
        mkSession (id session) (startTime session) (Some now) ERROR true
          (Some errorMessage) (result session) in
      let s1 := update_current fail s in
      let c := getSyncStats s1 in
      updateSyncStats
        (mkStatsUpdate None (Some date) None None (Some (failedSyncs c + 1))) s1
  end.

(** The counts of finished syncs add up. *)
Definition stats_add_up (c : SyncStats) : Prop :=
  totalSyncs c = successfulSyncs c + failedSyncs c.

(** Every address in use names a session of the heap. *)
Definition well_formed (s : Service) : Prop :=
  (forall a, a ∈ syncHistory s -> is_Some (heap s !! a))
  /\ (forall a, currentSync s = Some a -> is_Some (heap s !! a)).

(** A page that acknowledges, found in an open tab. *)
Definition good_env (t t' : Z) (name : string) : Env :=
  mkEnv t t' name (ExistingTab 5) (Acknowledged true None).

(** A page that does not answer the start message. *)
Definition silent_env (t t' : Z) (name : string) : Env :=
  mkEnv t t' name (ExistingTab 5) NoResponse.

(** A service caught in the middle of a [startSync]: its session is not
    yet completed. *)
Definition in_flight : Service :=
  mkService {[ 0%nat := createSyncSession "sync_a" 100 ]} (Some 0%nat) [] None.

(** A service with three sessions in its history. *)
Definition three_sessions : Service :=
  let done (name : string) (t : Z) :=
    mkSession name t (Some (t + 5)) INITIALIZING true None (Some "success") in
  mkService
    {[ 0%nat := done "sync_a" 100; 1%nat := done "sync_b" 200; 2%nat := done "sync_c" 300 ]}
    (Some 2%nat) [0%nat; 1%nat; 2%nat]
    (Some (mkSyncStats 12 (Some "2024-01-01T00:00:00.000Z") 3 2 1)).

End SyncService.


(** * Properties *)

(** ** 32-bit arithmetic and digit strings *)

Module JSFacts.
Import JS.

Lemma wrap32_add_mul (x k : Z) : wrap32 (x + k * 2 ^ 32) = wrap32 x.
Proof.
  unfold wrap32.
  replace (x + k * 2 ^ 32 + 2 ^ 31) with (x + 2 ^ 31 + k * 2 ^ 32) by ring.
  now rewrite Z_mod_plus_full.
Qed.

Lemma wrap32_eqm (x : Z) : exists k, wrap32 x = x + k * 2 ^ 32.
Proof.
  exists (- ((x + 2 ^ 31) / 2 ^ 32)). unfold wrap32.
  pose proof (Z_div_mod_eq_full (x + 2 ^ 31) (2 ^ 32)). lia.
Qed.

Lemma wrap32_range (x : Z) : - 2 ^ 31 <= wrap32 x < 2 ^ 31.
Proof.
  unfold wrap32.
  pose proof (Z.mod_pos_bound (x + 2 ^ 31) (2 ^ 32) ltac:(lia)). lia.
Qed.

Lemma wrap32_idem (x : Z) : wrap32 (wrap32 x) = wrap32 x.
Proof.
  destruct (wrap32_eqm x) as [k Hk].
  transitivity (wrap32 (x + k * 2 ^ 32)); [now f_equal|apply wrap32_add_mul].
Qed.

Lemma and32_diag (x : Z) : and32 x x = wrap32 x.
Proof. unfold and32. rewrite Z.land_diag. apply wrap32_idem. Qed.

Lemma shl32_5 (h : Z) : exists k, shl32 h 5 = Z.shiftl h 5 + k * 2 ^ 32.
Proof.
  unfold shl32. change (Z.land 5 31) with 5.
  destruct (wrap32_eqm h) as [k Hk].
  destruct (wrap32_eqm (Z.shiftl (wrap32 h) 5)) as [k' Hk'].
  exists (32 * k + k'). rewrite Hk', Hk, !Z.shiftl_mul_pow2 by lia. lia.
Qed.

(** Extra fuel does not change a decimal rendering once the fuel covers
    the number itself. *)
Lemma decimal_go_fuel (f g : nat) :
  forall n acc, 0 <= n <= Z.of_nat f ->
    decimal_go (S f) n acc = decimal_go (S (f + g)) n acc.
Proof.
  induction f as [|f IH]; intros n acc Hn.
  - assert (n = 0) by lia. subst n. reflexivity.
  - cbn [decimal_go Nat.add].
    destruct (n / 10 =? 0) eqn:E; [reflexivity|].
    apply IH. apply Z.eqb_neq in E.
    split; [apply Z.div_pos; lia|].
    assert (0 < n) by (destruct (Z.eq_dec n 0) as [->|]; [now rewrite Zdiv_0_l in E|lia]).
    assert (n / 10 < n) by (apply Z.div_lt; lia). lia.
Qed.

Lemma numberToString_fuel (n g : nat) :
  numberToString n = decimal_go (S (n + g)) (Z.of_nat n) [].
Proof. apply decimal_go_fuel. lia. Qed.

(** Extra fuel does not change a radix-36 rendering once the fuel covers the
    binary size of the number. *)
Lemma toString36_go_fuel (f g : nat) :
  forall n acc, 0 <= n < 2 ^ Z.of_nat (S f) ->
    toString36_go (S f) n acc = toString36_go (S (f + g)) n acc.
Proof.
  induction f as [|f IH]; intros n acc Hn.
  - assert (n / 36 = 0) as E
      by (apply Z.div_small; change (2 ^ Z.of_nat 1) with 2 in Hn; lia).
    cbn [toString36_go Nat.add]. rewrite E. cbn.
    destruct g; cbn [toString36_go]; rewrite ?E; reflexivity.
  - cbn [toString36_go Nat.add].
    destruct (n / 36 =? 0) eqn:E; [reflexivity|].
    apply IH.
    rewrite (Nat2Z.inj_succ (S f)), Z.pow_succ_r in Hn by lia.
    split; [apply Z.div_pos; lia|].
    apply Z.div_lt_upper_bound; lia.
Qed.

(** The fuel chosen by [toString36] is enough. *)
Lemma toString36_fuel (n : Z) (g : nat) :
  0 <= n ->
  toString36 n = toString36_go (S (Z.to_nat (Z.log2 n) + g)) n EmptyString.
Proof.
  intros Hn. unfold toString36. apply toString36_go_fuel.
  split; [exact Hn|].
  rewrite Nat2Z.inj_succ, Z2Nat.id by apply Z.log2_nonneg.
  destruct (Z.eq_dec n 0) as [->|Hne]; [reflexivity|].
  apply Z.log2_spec. lia.
Qed.

(** A number below [36 ^ k] has at most [k] digits. *)
Lemma toString36_go_length (k : nat) :
  forall f n acc, 0 <= n < 36 ^ Z.of_nat (S k) ->
    (String.length (toString36_go f n acc) <= String.length acc + S k)%nat.
Proof.
  induction k as [|k IH]; intros f n acc Hn.
  - destruct f as [|f]; cbn [toString36_go]; [lia|].
    assert (n / 36 = 0) as -> by (apply Z.div_small; change (36 ^ Z.of_nat 1) with 36 in Hn; lia).
    cbn. lia.
  - destruct f as [|f]; cbn [toString36_go]; [lia|].
    destruct (n / 36 =? 0); [cbn; lia|].
    etransitivity; [apply IH|cbn; lia].
    rewrite (Nat2Z.inj_succ (S k)), Z.pow_succ_r in Hn by lia.
    split; [apply Z.div_pos; lia|].
    apply Z.div_lt_upper_bound; lia.
Qed.

Lemma toString36_int32_length (h : Z) :
  - 2 ^ 31 <= h < 2 ^ 31 -> (String.length (toString36 (Z.abs h)) <= 7)%nat.
Proof.
  intros Hh. unfold toString36.
  etransitivity; [apply (toString36_go_length 6)|cbn; lia].
  change (36 ^ Z.of_nat 7) with 78364164096. lia.
Qed.

(** [s.substring(0, n)] returns [s] itself when [s] is not longer than [n]. *)
Lemma substring_short (s : string) :
  forall n, (String.length s <= n)%nat -> String.substring 0 n s = s.
Proof.
  induction s as [|c s IH]; intros [|n] H; cbn in *; try reflexivity; try lia.
  f_equal. apply IH. lia.
Qed.

Lemma substring_length_le (s : string) :
  forall n, (String.length (String.substring 0 n s) <= n)%nat.
Proof.
  induction s as [|c s IH]; intros [|n]; cbn; try lia.
  specialize (IH n). lia.
Qed.

End JSFacts.

(** ** IdentityGenerator *)

Module IdentityGeneratorFacts.
Import JS JSFacts IdentityGenerator.

(** The two statements of the loop body amount to one wrap-around of
    [(hash << 5) - hash + char]. *)
Lemma hash_step_fold32 (hash char : Z) : hash_step hash char = fold32 hash char.
Proof.
  unfold hash_step, fold32. rewrite and32_diag.
  destruct (shl32_5 hash) as [k ->].
  replace (Z.shiftl hash 5 + k * 2 ^ 32 - hash + char)
    with (Z.shiftl hash 5 - hash + char + k * 2 ^ 32) by ring.
  apply wrap32_add_mul.
Qed.

(** The indexed loop visits the code units from left to right. *)
Lemma hash_loop_fold (suf : jsstring) :
  forall pre hash,
    hash_loop (pre ++ suf) (length suf) (length pre) hash
    = fold_left fold32 suf hash.
Proof.
  induction suf as [|c suf IH]; intros pre hash; [reflexivity|].
  cbn [length hash_loop fold_left].
  unfold charCodeAt. rewrite nth_middle, hash_step_fold32.
  specialize (IH (pre ++ [c]) (fold32 hash c)).
  rewrite <- app_assoc, length_app in IH. cbn [length app] in IH.
  rewrite Nat.add_1_r in IH. exact IH.
Qed.

Lemma hash_loop_whole (str : jsstring) :
  hash_loop str (length str) 0 0 = fold_left fold32 str 0.
Proof. exact (hash_loop_fold str [] 0). Qed.

Lemma fold32_range (input : jsstring) :
  forall hash, - 2 ^ 31 <= hash < 2 ^ 31 ->
    - 2 ^ 31 <= fold_left fold32 input hash < 2 ^ 31.
Proof.
  induction input as [|c input IH]; intros hash Hh; [exact Hh|].
  cbn [fold_left]. apply IH, wrap32_range.
Qed.

Lemma generateElementId_short (htmlContent : jsstring) (index : nat) :
  (String.length (generateElementId htmlContent index) <= 12)%nat.
Proof. apply substring_length_le. Qed.

(** The cut at 12 characters never removes anything: a 32-bit magnitude has
    at most 7 digits in radix 36. *)
Lemma generateElementId_uncut (htmlContent : jsstring) (index : nat) :
  generateElementId htmlContent index
  = toString36 (Z.abs (fold_left fold32
      (take 500 htmlContent ++ numberToString index) 0)).
Proof.
  unfold generateElementId, substring0. cbv zeta.
  rewrite hash_loop_whole.
  apply substring_short.
  etransitivity; [apply toString36_int32_length, fold32_range; lia|lia].
Qed.

(** C4. [generateElementId] is a function of its two arguments only, and it
    computes what the specification describes: the first 500 characters of
    the content followed by the decimal index, folded by
    [(hash << 5) - hash + charCode] with 32-bit wrap-around, then the
    absolute value rendered in radix 36 and cut to at most 12 characters. *)
Theorem generateElementId_meets_spec (content : jsstring) (discoveryIndex : nat) :
  generateElementId content discoveryIndex = id_spec content discoveryIndex
  /\ (String.length (generateElementId content discoveryIndex) <= 12)%nat
  /\ (forall content' discoveryIndex',
        content' = content -> discoveryIndex' = discoveryIndex ->
        generateElementId content' discoveryIndex'
        = generateElementId content discoveryIndex).
Proof.
  split; [|split].
  - unfold generateElementId, id_spec, substring0. cbv zeta.
    now rewrite hash_loop_whole.
  - apply generateElementId_short.
  - intros content' discoveryIndex' -> ->. reflexivity.
Qed.

Lemma generateElementId_meets_spec_witness :
  generateElementId [97] 0 = "2cv"%string
  /\ id_spec [97] 0 = "2cv"%string
  /\ generateElementId (97 :: []) (0 + 0) = generateElementId [97] 0.
Proof.
  destruct (generateElementId_meets_spec [97] 0) as (Heq & _ & Hdet).
  split; [reflexivity|]. split; [rewrite <- Heq; reflexivity|].
  apply Hdet; reflexivity.
Defined.

End IdentityGeneratorFacts.

(** ** FeedCollector *)

Module FeedCollectorFacts.
Import JS FeedCollector.

(** Split a conjunction into its parts, leaving implications alone. *)
Ltac conjuncts := repeat match goal with |- _ /\ _ => split end.

Lemma scan_passes_app (a b : list Event) :
  scan_passes (a ++ b) = (scan_passes a + scan_passes b)%nat.
Proof. unfold scan_passes. now rewrite List.filter_app, length_app. Qed.

Lemma scroll_actions_app (a b : list Event) :
  scroll_actions (a ++ b) = (scroll_actions a + scroll_actions b)%nat.
Proof. unfold scroll_actions. now rewrite List.filter_app, length_app. Qed.

(** *** content.js *)

Section ContentLoop.
Variable p : Page.

Lemma content_pass_counters (st : State) :
  scrollAttempts (Content.pass p st).1 = S (scrollAttempts st)
  /\ (noNewElementsCount (Content.pass p st).1 <= S (noNewElementsCount st))%nat
  /\ scan_passes (Content.pass p st).2 = 1%nat
  /\ scroll_actions (Content.pass p st).2 = 1%nat.
Proof.
  unfold Content.pass.
  destruct (scan_elements _ _ _ _) as [new seen]. cbn.
  repeat split. destruct (length new =? 0)%nat; lia.
Qed.

Lemma content_continues_bounds (st : State) :
  Content.continues p st = true ->
  (scrollAttempts st < 20)%nat /\ (noNewElementsCount st < 3)%nat.
Proof.
  unfold Content.continues, Content.maxScrollAttempts. intros Hc.
  apply andb_prop in Hc as [Hc _]. apply andb_prop in Hc as [Ha Hb].
  apply Nat.ltb_lt in Ha, Hb. lia.
Qed.

(** The loop of [collectHTMLElements] ends on every page: with fuel beyond
    the attempts that are left it returns, more fuel changes nothing, the
    loop condition is false at the end, and every pass both scans and
    scrolls. *)
Lemma content_loop_total (fuel : nat) :
  forall st,
    (20 - scrollAttempts st < fuel)%nat ->
    exists final tr,
      (forall extra, Content.loop (fuel + extra) p st = Some (final, tr))
      /\ Content.continues p final = false
      /\ (within_limits st -> within_limits final)
      /\ (scan_passes tr <= 20 - scrollAttempts st)%nat
      /\ scroll_actions tr = scan_passes tr.
Proof.
  induction fuel as [|fuel IH]; intros st Hfuel; [lia|].
  destruct (Content.continues p st) eqn:Hc.
  - destruct (content_continues_bounds st Hc) as [Hlt Hno].
    destruct (content_pass_counters st) as (Hsa & Hnn & Hscan & Hscroll).
    destruct (Content.pass p st) as [st' evs] eqn:Hpass.
    cbn [fst snd] in Hsa, Hnn, Hscan, Hscroll.
    destruct (IH st') as (final & tr & Hrun & Hstop & Hlim & Hle & Heq); [lia|].
    exists final, (evs ++ tr). conjuncts.
    + intros extra. cbn [Nat.add Content.loop]. now rewrite Hc, Hpass, Hrun.
    + exact Hstop.
    + intros [? ?]. apply Hlim. unfold within_limits. lia.
    + rewrite scan_passes_app. lia.
    + rewrite scan_passes_app, scroll_actions_app. lia.
  - exists st, []. conjuncts; try exact Hc; try tauto.
    + intros extra. cbn [Nat.add Content.loop]. now rewrite Hc.
    + cbn. lia.
Qed.

(** On a page that is never cancelled, [collectHTMLElements] returns, after
    at most 20 passes, with 20 scroll attempts made or 3 empty passes in a
    row counted. *)
Lemma collectHTMLElements_terminates :
  (forall k, active p k = true) ->
  exists final tr,
    (forall extra, Content.collectHTMLElements (21 + extra) p = Some (final, tr))
    /\ stopped final
    /\ (scan_passes tr <= 20)%nat.
Proof.
  intros Hactive.
  destruct (content_loop_total 21 initial) as (final & tr & Hrun & Hstop & Hlim & Hle & _);
    [cbn; lia|].
  change (scrollAttempts initial) with 0%nat in Hle.
  exists final, tr. split; [exact Hrun|]. split; [|lia].
  destruct Hlim as [Hsa Hno]; [unfold within_limits; cbn; lia|].
  unfold Content.continues, Content.maxScrollAttempts in Hstop.
  rewrite Hactive, andb_true_r in Hstop.
  apply andb_false_iff in Hstop as [H|H]; apply Nat.ltb_ge in H;
    unfold stopped; lia.
Qed.

End ContentLoop.

(** *** contentScraper.js *)

Section ScraperLoop.
Variable p : Page.

Lemma scraper_continue_bounds (sa noNew : nat) :
  Scraper.shouldContinueCollecting sa noNew = true ->
  (sa < 20)%nat /\ (noNew < 3)%nat.
Proof.
  unfold Scraper.shouldContinueCollecting. intros Hc.
  apply andb_prop in Hc as [Ha Hb]. apply Nat.ltb_lt in Ha, Hb.
  unfold Constants.MAX_SCROLL_ATTEMPTS, Constants.MAX_NO_NEW_ELEMENTS in *. lia.
Qed.

Lemma scrollAndWait_counts (k : nat) :
  scan_passes (Scraper.scrollAndWait p k) = 0%nat
  /\ scroll_actions (Scraper.scrollAndWait p k) = 1%nat.
Proof. unfold Scraper.scrollAndWait. now destruct (grew p k). Qed.

(** A pass scans once; it scrolls and counts the attempt exactly when the
    loop is to go on with the updated empty-pass counter, and otherwise
    leaves a state in which the loop condition is false. *)
Lemma scraper_pass_counters (st : State) :
  scan_passes (Scraper.pass p st).2 = 1%nat
  /\ (noNewElementsCount (Scraper.pass p st).1 <= S (noNewElementsCount st))%nat
  /\ ((scroll_actions (Scraper.pass p st).2 = 1%nat
       /\ scrollAttempts (Scraper.pass p st).1 = S (scrollAttempts st))
      \/ (scroll_actions (Scraper.pass p st).2 = 0%nat
          /\ scrollAttempts (Scraper.pass p st).1 = scrollAttempts st
          /\ Scraper.shouldContinueCollecting
               (scrollAttempts (Scraper.pass p st).1)
               (noNewElementsCount (Scraper.pass p st).1) = false)).
Proof.
  unfold Scraper.pass.
  destruct (scan_elements _ _ _ _) as [new seen].
  set (noNew := if (length new =? 0)%nat then _ else _).
  assert (noNew <= S (noNewElementsCount st))%nat as Hnn
    by (subst noNew; destruct (length new =? 0)%nat; lia).
  destruct (Scraper.shouldContinueCollecting (scrollAttempts st) noNew) eqn:Hc;
    cbn [fst snd noNewElementsCount scrollAttempts].
  - destruct (scrollAndWait_counts (scrollAttempts st)) as [Hs Hw].
    rewrite scan_passes_app, scroll_actions_app, Hs, Hw.
    split; [reflexivity|]. split; [exact Hnn|]. left. split; reflexivity.
  - split; [reflexivity|]. split; [exact Hnn|]. right.
    split; [reflexivity|]. split; [reflexivity|exact Hc].
Qed.

(** The loop of [collectAllElements] ends on every page. *)
Lemma scraper_loop_total (fuel : nat) :
  forall st,
    (0 < fuel)%nat ->
    (Scraper.shouldContinueCollecting (scrollAttempts st) (noNewElementsCount st) = true ->
     (20 - scrollAttempts st < fuel)%nat) ->
    exists final tr,
      (forall extra, Scraper.loop (fuel + extra) p st = Some (final, tr))
      /\ Scraper.shouldContinueCollecting
           (scrollAttempts final) (noNewElementsCount final) = false
      /\ (within_limits st -> within_limits final)
      /\ (scan_passes tr <= 20 - scrollAttempts st)%nat
      /\ (scroll_actions tr <= scan_passes tr)%nat.
Proof.
  induction fuel as [|fuel IH]; intros st Hpos Hfuel; [lia|].
  destruct (Scraper.shouldContinueCollecting _ _) eqn:Hc.
  - specialize (Hfuel eq_refl).
    destruct (scraper_continue_bounds _ _ Hc) as [Hlt Hno].
    destruct (scraper_pass_counters st) as (Hscan & Hnn & Hcases).
    destruct (Scraper.pass p st) as [st' evs] eqn:Hpass.
    cbn [fst snd] in Hscan, Hnn, Hcases.
    assert (exists final tr,
      (forall extra, Scraper.loop (fuel + extra) p st' = Some (final, tr))
      /\ Scraper.shouldContinueCollecting
           (scrollAttempts final) (noNewElementsCount final) = false
      /\ (within_limits st' -> within_limits final)
      /\ (scan_passes tr <= 20 - scrollAttempts st')%nat
      /\ (scroll_actions tr <= scan_passes tr)%nat) as IH'.
    { apply IH; [lia|]. intros Hc'.
      destruct Hcases as [[_ Hsa]|(_ & _ & Hfalse)]; [lia|congruence]. }
    destruct IH' as (final & tr & Hrun & Hstop & Hlim & Hle & Hsc).
    assert (scrollAttempts st <= scrollAttempts st' <= S (scrollAttempts st))%nat
      as Hsa by (destruct Hcases as [[_ ->]|(_ & -> & _)]; lia).
    assert (scan_passes tr <= 20 - S (scrollAttempts st))%nat as Hle'.
    { destruct Hcases as [[_ Hs]|(_ & Hs & Hfalse)]; [rewrite Hs in Hle; exact Hle|].
      specialize (Hrun 0%nat). rewrite Nat.add_0_r in Hrun.
      destruct fuel as [|fuel']; [lia|]. cbn [Scraper.loop] in Hrun.
      rewrite Hfalse in Hrun. injection Hrun as _ <-. cbn. lia. }
    exists final, (evs ++ tr). conjuncts.
    + intros extra. cbn [Nat.add Scraper.loop]. now rewrite Hc, Hpass, Hrun.
    + exact Hstop.
    + intros [? ?]. apply Hlim. unfold within_limits. lia.
    + rewrite scan_passes_app. lia.
    + rewrite scan_passes_app, scroll_actions_app.
      destruct Hcases as [[-> _]|(-> & _)]; lia.
  - exists st, []. conjuncts; try exact Hc; try tauto.
    + intros extra. cbn [Nat.add Scraper.loop]. now rewrite Hc.
    + cbn. lia.
    + cbn. lia.
Qed.

(** [collectAllElements] returns on every page, after at most 20 passes,
    with 20 scroll attempts made or 3 empty passes in a row counted. *)
Lemma collectAllElements_terminates :
  exists final tr,
    (forall extra, Scraper.collectAllElements (21 + extra) p = Some (final, tr))
    /\ stopped final
    /\ (scan_passes tr <= 20)%nat
    /\ (scroll_actions tr <= scan_passes tr)%nat.
Proof.
  destruct (scraper_loop_total 21 initial) as (final & tr & Hrun & Hstop & Hlim & Hle & Hsc);
    [lia|cbn; lia|].
  change (scrollAttempts initial) with 0%nat in Hle.
  exists final, tr. split; [exact Hrun|]. split; [|split; [lia|exact Hsc]].
  destruct Hlim as [Hsa Hno]; [unfold within_limits; cbn; lia|].
  unfold Scraper.shouldContinueCollecting, Constants.MAX_SCROLL_ATTEMPTS,
    Constants.MAX_NO_NEW_ELEMENTS in Hstop.
  apply andb_false_iff in Hstop as [H|H]; apply Nat.ltb_ge in H;
    unfold stopped; lia.
Qed.

End ScraperLoop.

(** On the mock page [ContentScraper.collectAllElements] does what the
    specification expects: 7 elements, 4 scan passes, 3 scroll actions. *)
Lemma collectAllElements_mock7 (extra : nat) :
  exists final tr,
    Scraper.collectAllElements (21 + extra) mock7 = Some (final, tr)
    /\ length (collectedElements final) = 7%nat
    /\ noNewElementsCount final = 3%nat
    /\ scan_passes tr = 4%nat
    /\ scroll_actions tr = 3%nat.
Proof.
  destruct (collectAllElements_terminates mock7) as (final & tr & Hrun & _).
  exists final, tr. split; [apply Hrun|].
  specialize (Hrun 0%nat). vm_compute in Hrun.
  injection Hrun as <- <-. vm_compute. auto.
Qed.

(** C3. On the mock page that shows the same seven posts after every
    scroll, [collectHTMLElements] of content.js collects the 7 elements in
    4 scan passes (one finding 7, three empty) but performs 4 scroll
    actions, one after every pass including the last, where the
    specification expects 3. *)
Theorem collectHTMLElements_mock7 (extra : nat) :
  exists final tr,
    Content.collectHTMLElements (21 + extra) mock7 = Some (final, tr)
    /\ length (collectedElements final) = 7%nat
    /\ noNewElementsCount final = 3%nat
    /\ scan_passes tr = 4%nat
    /\ scroll_actions tr = 4%nat.
Proof.
  destruct (collectHTMLElements_terminates mock7) as (final & tr & Hrun & _);
    [reflexivity|].
  exists final, tr. split; [apply Hrun|].
  specialize (Hrun 0%nat). vm_compute in Hrun.
  injection Hrun as <- <-. vm_compute. auto.
Qed.

End FeedCollectorFacts.

(** ** DeliveryCoordinator *)

Module DeliveryFacts.
Import FeedCollector Delivery.

Ltac conjuncts := repeat match goal with |- _ /\ _ => split end.




(** *** Staggering *)



(** *** content.js *)


Section ContentRun.
Variable n : nat.

Local Abbreviation done c := (Content.successful c + Content.failed c)%nat.




End ContentRun.

(** *** DataProcessor *)


Section DataProcessorRun.
Variable n : nat.

Local Abbreviation processed := DataProcessor.processed.
Local Abbreviation consistent st :=
  (processed st = DataProcessor.statsSuccessful st + DataProcessor.statsFailed st)%nat.




End DataProcessorRun.

(** *** Completion, counters and staggering of a delivery run *)








(** Each outcome adds one to the processed count and to exactly one of the
    two result counters. *)
Lemma one_counter_per_outcome (n : nat) (st : DataProcessor.Stats)
    (o : DataProcessor.Outcome) :
  let st' := (DataProcessor.processPost n st o).1 in
  DataProcessor.processed st' = S (DataProcessor.processed st)
  /\ ((DataProcessor.statsSuccessful st' = S (DataProcessor.statsSuccessful st)
       /\ DataProcessor.statsFailed st' = DataProcessor.statsFailed st)
      \/ (DataProcessor.statsSuccessful st' = DataProcessor.statsSuccessful st
          /\ DataProcessor.statsFailed st' = S (DataProcessor.statsFailed st))).
Proof.
  unfold DataProcessor.processPost.
  destruct (DataProcessor.sendSingleElementToBackend o); cbv zeta;
    cbn [DataProcessor.statsSuccessful DataProcessor.statsFailed
         DataProcessor.processed];
    destruct (Nat.eqb (S (DataProcessor.processed st)) n); cbn; auto.
Qed.



End DeliveryFacts.

(** ** AuthProvider *)

Module TokenManagerFacts.
Import TokenManager.

Ltac conjuncts := repeat match goal with |- _ /\ _ => split end.

Lemma truthy_token (c : AuthConfig) :
  truthy (authToken c) = true -> exists token, authToken c = Some token.
Proof. destruct (authToken c) as [token|]; [eauto|discriminate]. Qed.

(** With a cached credential [validateToken] always makes the one remote
    call, whatever comes back. *)
Lemma validateToken_calls_remote (r : Remote) (w : World) (c : AuthConfig) (token : string) :
  cached w c -> authToken c = Some token ->
  (validateToken r w).2 = [FetchUsersMe token].
Proof.
  intros [Hget Htruthy] Htok. unfold validateToken. rewrite Hget, Htok.
  rewrite Htok in Htruthy. rewrite Htruthy. cbn [negb].
  destruct (fetched r) as [m|st [u|m]]; [reflexivity| |];
    destruct (ok st); [reflexivity| |reflexivity|];
    destruct ((st =? 401) || (st =? 403)); reflexivity.
Qed.

(** C5. With a cached credential last validated at [t0], a status query at
    a time [t] with [t - t0] below five minutes answers authenticated
    without any remote call and leaves everything as it was; from five
    minutes on, the query calls the remote check with the cached token. *)
Theorem auth_freshness (w : World) (c : AuthConfig) (t0 : Z) (r : Remote) :
  cached w c ->
  lastValidated c = Some t0 ->
  TOKEN_CHECK_INTERVAL = 300000
  /\ (now w - t0 < 300000 ->
      getAuthStatus r w = (mkAuthStatus true valid false (Some c) None None, w, []))
  /\ (300000 <= now w - t0 ->
      exists token, authToken c = Some token
        /\ (getAuthStatus r w).2 = [FetchUsersMe token]).
Proof.
  intros Hcached Hlast. pose proof Hcached as [Hget Htruthy].
  split; [reflexivity|].
  unfold getAuthStatus. rewrite Hget, Htruthy, Hlast. cbn [negb].
  change (default 0 (Some t0)) with t0.
  change TOKEN_CHECK_INTERVAL with 300000. split; intros Ht.
  - now rewrite (proj2 (Z.ltb_lt _ _) Ht).
  - rewrite (proj2 (Z.ltb_ge _ _) Ht).
    destruct (truthy_token c Htruthy) as [token Htok]. exists token.
    split; [exact Htok|].
    pose proof (validateToken_calls_remote r w c token Hcached Htok) as Hcall.
    destruct (validateToken r w) as [[v w'] eff]. cbn [snd] in Hcall.
    now destruct (v_success v).
Qed.

Lemma sample_world_cached (t0 t : Z) : cached (sample_world t0 t) (sample_config t0).
Proof. split; reflexivity. Defined.

Lemma auth_freshness_witness :
  (getAuthStatus sample_remote (sample_world 0 240000)).2 = []
  /\ (getAuthStatus sample_remote (sample_world 0 360000)).2 = [FetchUsersMe "tok"].
Proof.
  split.
  - destruct (auth_freshness (sample_world 0 240000) (sample_config 0) 0 sample_remote
                (sample_world_cached 0 240000) eq_refl) as (_ & Hfresh & _).
    rewrite Hfresh; [reflexivity|cbn; lia].
  - destruct (auth_freshness (sample_world 0 360000) (sample_config 0) 0 sample_remote
                (sample_world_cached 0 360000) eq_refl) as (_ & _ & Hstale).
    destruct Hstale as (token & Htok & Hcall); [cbn; lia|].
    cbn in Htok. injection Htok as <-. exact Hcall.
Defined.

Lemma not_ok_401_403 (status : Z) :
  status = 401 \/ status = 403 ->
  ok status = false /\ (status =? 401) || (status =? 403) = true.
Proof. intros [->| ->]; split; reflexivity. Qed.

Lemma neither_401_403 (status : Z) :
  status <> 401 -> status <> 403 -> (status =? 401) || (status =? 403) = false.
Proof.
  intros H1 H3. apply orb_false_iff. split; now apply Z.eqb_neq.
Qed.




End TokenManagerFacts.

(** ** Background worker *)

Module BackgroundFacts.
Import FeedCollector Background.

Lemma credential_reads_app (a b : list Effect) :
  credential_reads (a ++ b) = (credential_reads a + credential_reads b)%nat.
Proof. unfold credential_reads. now rewrite List.filter_app, length_app. Qed.

(** Handling one element starts by reading the cookie, and reads it once. *)
Lemma handleSingleHTMLElement_reads (env : Env) (e : ElementData) :
  credential_reads (handleSingleHTMLElement env e).2 = 1%nat
  /\ head (handleSingleHTMLElement env e).2 = Some CookiesGetAll.
Proof.
  unfold handleSingleHTMLElement.
  destruct (cookies env) as [|c rest]; [split; reflexivity|].
  destruct (String.eqb (value c) ""); [split; reflexivity|].
  destruct (users_me env) as [|code json]; [split; reflexivity|].
  destruct (negb (ok code && json)); [split; reflexivity|].
  destruct (posts_queue env) as [|code' json']; [split; reflexivity|].
  destruct (ok code' && json'); split; reflexivity.
Qed.

(** C7, as the code has it. The worker reads the credential (the
    [accessToken] cookie) once for every element it is asked to deliver, at
    the start of handling it: over a run the number of credential reads is
    the number of items. *)
Theorem credential_read_per_item (items : list (Env * ElementData)) :
  credential_reads (deliver items).2 = length items.
Proof.
  induction items as [|[env e] rest IH]; [reflexivity|].
  cbn [deliver length].
  destruct (handleSingleHTMLElement_reads env e) as [Hone _].
  destruct (handleSingleHTMLElement env e) as [r effs].
  destruct (deliver rest) as [rs tr]. cbn [snd] in *.
  rewrite credential_reads_app, Hone, IH. reflexivity.
Qed.

(** Two items delivered by a logged-in user against a healthy backend: the
    credential is read twice, not once, and a run of one item reads it a
    different number of times. *)
Lemma credential_reads_grow_with_items :
  credential_reads (deliver [(healthy, post 0); (healthy, post 1)]).2 = 2%nat
  /\ credential_reads (deliver [(healthy, post 0); (healthy, post 1)]).2 <> 1%nat
  /\ credential_reads (deliver [(healthy, post 0)]).2
     <> credential_reads (deliver [(healthy, post 0); (healthy, post 1)]).2.
Proof. split; [reflexivity|]. split; cbn; discriminate. Qed.

End BackgroundFacts.

(** ** CrossContextMessenger *)

Module MessageServiceFacts.
Import MessageService.

Ltac conjuncts := repeat match goal with |- _ /\ _ => split end.

(** A handler that throws or rejects is answered for by the wrapper: the
    sender gets an ordinary response carrying the error text. *)
Lemma handler_error_is_a_response (latency timeout : Z) (h : Handler) (message : string) :
  h = Throws message \/ h = PromiseRejects message ->
  latency < timeout ->
  race timeout (received_by latency h) = Fulfilled (ErrorResponse message).
Proof.
  intros [-> | ->] Hlt; cbn; now rewrite (proj2 (Z.ltb_lt _ _) Hlt).
Qed.

Section Attempts.
Variables (retries : nat) (timeout : Z) (world : nat -> Send).

Local Abbreviation run left attempt lastError :=
  (attempts left attempt retries timeout world lastError).

Lemma attempts_sends_positive (left attempt : nat) (lastError : option Error) :
  (0 < left)%nat -> (0 < sends (run left attempt lastError).2)%nat.
Proof.
  destruct left as [|left']; [lia|]. intros _. cbn [attempts].
  destruct (race timeout (world attempt)); [cbn; lia|].
  destruct (attempts left' _ _ _ _ _) as [res tr]. cbn. lia.
Qed.

(** The loop from attempt [attempt] on, with [left] iterations to go. *)
Lemma attempts_spec (left : nat) :
  forall attempt lastError,
    (attempt + left = retries)%nat ->
    let res := (run left attempt lastError).1 in
    let tr := (run left attempt lastError).2 in
    (sends tr <= left)%nat
    /\ waits tr
       = map (fun k => 1000 * Z.of_nat k) (seq (S attempt) (sends tr - 1))
    /\ (forall k, (S k < sends tr)%nat ->
          communication_failure (race timeout (world (attempt + k)%nat)))
    /\ (forall k response,
          (k < left)%nat ->
          (forall j, (j < k)%nat ->
             communication_failure (race timeout (world (attempt + j)%nat))) ->
          race timeout (world (attempt + k)%nat) = Fulfilled response ->
          res = Return response /\ sends tr = S k).
Proof.
  induction left as [|left' IH]; intros attempt lastError Hsum res tr; subst res tr.
  - cbn. conjuncts; try reflexivity; try lia; intros; lia.
  - cbn [attempts].
    destruct (race timeout (world attempt)) as [response|e] eqn:Hrace.
    + cbn [fst snd]. conjuncts.
      * cbn. lia.
      * reflexivity.
      * cbn. intros k Hk. lia.
      * intros k response' Hk Hprev Hk'.
        destruct k as [|k].
        -- rewrite Nat.add_0_r, Hrace in Hk'. injection Hk' as ->. auto.
        -- specialize (Hprev 0%nat ltac:(lia)).
           rewrite Nat.add_0_r, Hrace in Hprev. contradiction.
    + specialize (IH (S attempt) (Some e) ltac:(lia)).
      pose proof (attempts_sends_positive left' (S attempt) (Some e)) as Hpos.
      destruct (attempts left' (S attempt) retries timeout world (Some e))
        as [res tr] eqn:Hrec.
      cbn [fst snd] in *. destruct IH as (Hle & Hwaits & Hfail & Hok).
      assert (sends (Sent attempt :: (if (attempt <? retries - 1)%nat
                then [Waited (1000 * (Z.of_nat attempt + 1))] else []) ++ tr)
              = S (sends tr)) as Hsends
        by (destruct (attempt <? retries - 1)%nat; reflexivity).
      conjuncts.
      * lia.
      * rewrite Hsends. cbn [waits]. replace (S (sends tr) - 1)%nat with (sends tr) by lia.
        destruct (Nat.ltb_spec attempt (retries - 1)) as [Hlt|Hge].
        -- specialize (Hpos ltac:(lia)).
           cbn [app waits]. rewrite Hwaits.
           replace (sends tr) with (S (sends tr - 1)) at 2 by lia.
           cbn [seq map]. f_equal. lia.
        -- assert (left' = 0)%nat as -> by lia. cbn in Hrec.
           injection Hrec as <- <-. reflexivity.
      * rewrite Hsends. intros [|k] Hk.
        -- rewrite Nat.add_0_r, Hrace. exact I.
        -- replace (attempt + S k)%nat with (S attempt + k)%nat by lia.
           apply Hfail. lia.
      * rewrite Hsends. intros [|k] response Hk Hprev Hk'.
        -- rewrite Nat.add_0_r, Hrace in Hk'. discriminate.
        -- replace (attempt + S k)%nat with (S attempt + k)%nat in Hk' by lia.
           destruct (Hok k response) as [-> ->]; [lia| |exact Hk'|auto].
           intros j Hj. specialize (Hprev (S j) ltac:(lia)).
           now replace (attempt + S j)%nat with (S attempt + j)%nat in Hprev by lia.
Qed.

End Attempts.

(** C9. [_sendMessage] sends at most [retries] times; every send after the
    first follows a communication failure (send error or timeout) of the
    attempt before it; the pause after the k-th failed attempt is
    [k * 1000] ms; and a response that arrives is returned at once, so the
    error of a remote handler, which the listener wrapper turns into a
    response, is returned and never sent again. *)
Theorem retry_only_on_communication_failure (options : Options) (world : nat -> Send) :
  let res := (_sendMessage options world).1 in
  let tr := (_sendMessage options world).2 in
  (sends tr <= retries_of options)%nat
  /\ waits tr = map (fun k => Z.of_nat k * 1000) (seq 1 (sends tr - 1))
  /\ (forall k, (S k < sends tr)%nat ->
        communication_failure (race (timeout_of options) (world k)))
  /\ (forall k latency h message,
        (k < retries_of options)%nat ->
        (forall j, (j < k)%nat ->
           communication_failure (race (timeout_of options) (world j))) ->
        world k = received_by latency h ->
        h = Throws message \/ h = PromiseRejects message ->
        latency < timeout_of options ->
        res = Return (ErrorResponse message) /\ sends tr = S k).
Proof.
  intros res tr. subst res tr. unfold _sendMessage.
  destruct (attempts_spec (retries_of options) (timeout_of options) world
              (retries_of options) 0 None eq_refl) as (Hle & Hwaits & Hfail & Hok).
  conjuncts.
  - exact Hle.
  - rewrite Hwaits. apply map_ext. intros k. lia.
  - exact Hfail.
  - intros k latency h message Hk Hprev Hworld Hh Hlat.
    apply (Hok k (ErrorResponse message) Hk Hprev). cbn [Nat.add].
    rewrite Hworld. now apply handler_error_is_a_response.
Qed.

Lemma retry_only_on_communication_failure_witness :
  (_sendMessage (mkOptions (Some 5000) (Some 3%nat)) flaky_then_handler_error).1
  = Return (ErrorResponse "not authenticated")
  /\ sends (_sendMessage (mkOptions (Some 5000) (Some 3%nat))
              flaky_then_handler_error).2 = 2%nat.
Proof.
  destruct (retry_only_on_communication_failure
              (mkOptions (Some 5000) (Some 3%nat)) flaky_then_handler_error)
    as (_ & _ & _ & Hhandler).
  apply (Hhandler 1%nat 20 (Throws "not authenticated")).
  - cbn. lia.
  - intros j Hj. assert (j = 0)%nat as -> by lia. exact I.
  - reflexivity.
  - left. reflexivity.
  - cbn. lia.
Defined.

(** C10. [sendToContent] makes exactly one call to
    [chrome.tabs.sendMessage] and its result is that of the call: the
    options take no part, so neither the timeout nor the retry count asked
    for by [initiateScraping] has any effect. *)
Theorem sendToContent_ignores_options (tabId : Z) (type data : string)
    (options : Options) (world : TabSend) :
  sendToContent tabId type data options world
  = sendToContent tabId type data no_options world
  /\ (sendToContent tabId type data options world).2
     = [TabsSendMessage tabId type data]
  /\ (forall response, world = TabResolves response ->
        (sendToContent tabId type data options world).1 = TabReturn response)
  /\ (forall message, world = TabRejects message ->
        (sendToContent tabId type data options world).1 = TabThrow message)
  /\ (world = TabNeverSettles ->
        (sendToContent tabId type data options world).1 = TabPending)
  /\ (initiateScraping_send tabId data world).2
     = [TabsSendMessage tabId "START_SCRAPING" data].
Proof.
  unfold initiateScraping_send, sendToContent.
  conjuncts; try (intros; subst world; reflexivity); destruct world; reflexivity.
Qed.

Lemma sendToContent_ignores_options_witness :
  (sendToContent 7 "START_SCRAPING" "cfg"
     (mkOptions (Some 10000) (Some 2%nat)) (TabRejects "no receiver")).1
  = TabThrow "no receiver"
  /\ (sendToContent 7 "START_SCRAPING" "cfg"
        (mkOptions (Some 10000) (Some 2%nat)) TabNeverSettles).1 = TabPending.
Proof.
  split.
  - apply (sendToContent_ignores_options 7 "START_SCRAPING" "cfg"
             (mkOptions (Some 10000) (Some 2%nat)) (TabRejects "no receiver")).
    reflexivity.
  - apply (sendToContent_ignores_options 7 "START_SCRAPING" "cfg"
             (mkOptions (Some 10000) (Some 2%nat)) TabNeverSettles).
    reflexivity.
Defined.

End MessageServiceFacts.

(** ** FeedCollector: deduplication, cancellation, scroll counts *)

Module FeedCollectorMore.
Import JS FeedCollector FeedCollectorInvariants FeedCollectorFacts.







(** *** The identifiers stay distinct *)









(** *** Cancellation *)

Lemma content_loop_cancelled (p : Page) (k fuel : nat) :
  active p k = false ->
  forall st final tr,
    (scrollAttempts st <= k)%nat ->
    Content.loop fuel p st = Some (final, tr) ->
    (scan_passes tr <= k - scrollAttempts st)%nat
    /\ (scrollAttempts final <= k)%nat.
Proof.
  intros Hk. induction fuel as [|fuel IH]; intros st final tr Hle Hrun;
    [discriminate|].
  cbn [Content.loop] in Hrun.
  destruct (Content.continues p st) eqn:Hc.
  - assert (scrollAttempts st <> k) as Hne.
    { intros Heq. unfold Content.continues in Hc. rewrite Heq, Hk in Hc.
      now rewrite andb_false_r in Hc. }
    destruct (content_pass_counters p st) as (Hsa & _ & Hscan & _).
    destruct (Content.pass p st) as [st' evs]. cbn [fst snd] in Hsa, Hscan.
    destruct (Content.loop fuel p st') as [[f t]|] eqn:Hrec; [|discriminate].
    injection Hrun as <- <-.
    destruct (IH st' f t ltac:(lia) Hrec) as [Hpasses Hfinal].
    rewrite scan_passes_app. lia.
  - injection Hrun as <- <-. cbn. lia.
Qed.

(** In content.js every pass scrolls, and the counter counts the passes. *)
Lemma content_loop_counts (p : Page) (fuel : nat) :
  forall st final tr,
    Content.loop fuel p st = Some (final, tr) ->
    scroll_actions tr = scan_passes tr
    /\ scrollAttempts final = (scrollAttempts st + scan_passes tr)%nat.
Proof.
  induction fuel as [|fuel IH]; intros st final tr Hrun; [discriminate|].
  cbn [Content.loop] in Hrun.
  destruct (Content.continues p st).
  - destruct (content_pass_counters p st) as (Hsa & _ & Hscan & Hscroll).
    destruct (Content.pass p st) as [st' evs]. cbn [fst snd] in Hsa, Hscan, Hscroll.
    destruct (Content.loop fuel p st') as [[f t]|] eqn:Hrec; [|discriminate].
    injection Hrun as <- <-. destruct (IH _ _ _ Hrec) as [Heq Hfinal].
    rewrite scan_passes_app, scroll_actions_app. lia.
  - injection Hrun as <- <-. cbn. lia.
Qed.

(** X3. Once the cancel button has cleared [isScrapingActive], the loop of
    content.js starts no further pass: if the flag is found cleared when
    pass number [k] (counted from 0) would start, at most [k] passes and
    [k] scrolls have been made, and none at all when it is cleared from the
    beginning. *)
Theorem cancel_stops_collection (p : Page) (k fuel : nat)
    (final : State) (tr : list Event) :
  active p k = false ->
  Content.collectHTMLElements fuel p = Some (final, tr) ->
  (scan_passes tr <= k)%nat
  /\ (scroll_actions tr <= k)%nat
  /\ (k = 0%nat -> tr = [] /\ collectedElements final = []).
Proof.
  intros Hk Hrun.
  destruct (content_loop_cancelled p k fuel Hk initial final tr ltac:(cbn; lia) Hrun)
    as [Hpasses _].
  change (scrollAttempts initial) with 0%nat in Hpasses.
  destruct (content_loop_counts p fuel _ _ _ Hrun) as [Hsame _].
  split; [lia|]. split; [lia|].
  intros ->. unfold Content.collectHTMLElements in Hrun.
  destruct fuel as [|fuel]; [discriminate|]. cbn [Content.loop] in Hrun.
  unfold Content.continues in Hrun.
  change (scrollAttempts initial) with 0%nat in Hrun.
  rewrite Hk, andb_false_r in Hrun. injection Hrun as <- <-. split; reflexivity.
Qed.

Lemma cancel_stops_collection_witness :
  exists final tr,
    Content.collectHTMLElements 21 cancelled_after_first_pass = Some (final, tr)
    /\ (scan_passes tr <= 1)%nat /\ (scroll_actions tr <= 1)%nat.
Proof.
  destruct (content_loop_total cancelled_after_first_pass 21 initial)
    as (final & tr & Hrun & _); [cbn; lia|].
  exists final, tr. split; [exact (Hrun 0%nat)|].
  destruct (cancel_stops_collection cancelled_after_first_pass 1 21 final tr
              eq_refl (Hrun 0%nat)) as (Hscan & Hscroll & _).
  split; assumption.
Defined.

(** *** How often [ContentScraper] scrolls *)





End FeedCollectorMore.

(** ** Delivery: totals and the sequence of progress reports *)

Module DeliveryMore.
Import FeedCollector Delivery DeliveryTotals DeliveryFacts.












End DeliveryMore.

(** ** AuthProvider: login, logout and revalidation *)

Module AuthFlowsFacts.
Import TokenManager AuthFlows TokenManagerFacts.

Ltac conjuncts := repeat match goal with |- _ /\ _ => split end.

Lemma getAuthConfig_at_time (t : Z) (w : World) :
  getAuthConfig (at_time t w) = getAuthConfig w.
Proof. reflexivity. Qed.

Lemma getAuthConfig_setAuthConfig (config : ConfigInput) (w : World) :
  getAuthConfig (setAuthConfig config w)
  = Some (mkAuthConfig (in_authToken config) (in_userId config)
            (string_or (in_frontendUrl config) FRONTEND_BASE)
            (string_or (in_backendUrl config) BACKEND_BASE)
            (number_or_null (in_tokenExpiry config)) (Some (now w))).
Proof. unfold getAuthConfig, setAuthConfig. cbn. apply lookup_insert_eq. Qed.

(** The status query on a fresh credential. *)
Lemma fresh_status (w : World) (c : AuthConfig) (t0 : Z) (r : Remote) :
  cached w c -> lastValidated c = Some t0 -> now w - t0 < 300000 ->
  getAuthStatus r w = (mkAuthStatus true valid false (Some c) None None, w, []).
Proof.
  intros [Hget Htruthy] Hlast Ht. unfold getAuthStatus.
  rewrite Hget, Htruthy, Hlast. cbn [negb].
  change (default 0 (Some t0)) with t0. change TOKEN_CHECK_INTERVAL with 300000.
  now rewrite (proj2 (Z.ltb_lt _ _) Ht).
Qed.

(** [validateToken] with a cached credential, case by case. *)
Lemma validateToken_cached (w : World) (c : AuthConfig) (r : Remote) :
  cached w c ->
  exists token, authToken c = Some token
    /\ validateToken r w
       = match fetched r with
         | NetworkFailure message =>
             (mkValidation false None
                (Some (Thrown (message_or_network_error message))) false None,
              after_fetch r w, [FetchUsersMe token])
         | HttpResponse status body =>
             if ok status then
               match body with
               | Json userData =>
                   (mkValidation true (Some userData) None false None,
                    updateLastValidated (after_fetch r w), [FetchUsersMe token])
               | NotJson message =>
                   (mkValidation false None
                      (Some (Thrown (message_or_network_error message)))
                      false None,
                    after_fetch r w, [FetchUsersMe token])
               end
             else if (status =? 401) || (status =? 403) then
               (mkValidation false None (Some TokenExpiredOrInvalid) true
                  (Some status),
                clearAuthConfig (after_fetch r w), [FetchUsersMe token])
             else
               (mkValidation false None (Some (ApiError status)) false None,
                after_fetch r w, [FetchUsersMe token])
         end.
Proof.
  intros [Hget Htruthy]. destruct (truthy_token c Htruthy) as [token Htok].
  exists token. split; [exact Htok|].
  unfold validateToken. rewrite Hget, Htok. rewrite Htok in Htruthy.
  now rewrite Htruthy.
Qed.

(** X7. A credential written by [setAuthConfig] is trusted at once: any
    status query made less than five minutes after the write answers
    authenticated with the token just stored and makes no remote call;
    what was stored before does not matter. *)
Theorem login_is_trusted_for_five_minutes (config : ConfigInput) (w : World)
    (t : Z) (r : Remote) :
  truthy (in_authToken config) = true ->
  t - now w < 300000 ->
  exists stored,
    getAuthConfig (setAuthConfig config w) = Some stored
    /\ authToken stored = in_authToken config
    /\ getAuthStatus r (at_time t (setAuthConfig config w))
       = (mkAuthStatus true valid false (Some stored) None None,
          at_time t (setAuthConfig config w), []).
Proof.
  intros Htok Ht. eexists. split; [apply getAuthConfig_setAuthConfig|].
  split; [reflexivity|].
  apply (fresh_status (at_time t (setAuthConfig config w)) _ (now w) r).
  - split; [rewrite getAuthConfig_at_time; apply getAuthConfig_setAuthConfig|exact Htok].
  - reflexivity.
  - exact Ht.
Qed.

Lemma login_is_trusted_for_five_minutes_witness :
  isAuthenticated
    (at_time 1200
       (setAuthConfig (mkConfigInput (Some "fresh") (Some "u7") None None None)
          (sample_world 0 1000))) = true
  /\ (getAuthStatus empty_204
        (at_time 1200
           (setAuthConfig (mkConfigInput (Some "fresh") (Some "u7") None None None)
              (sample_world 0 1000)))).2 = [].
Proof.
  split; [reflexivity|].
  destruct (login_is_trusted_for_five_minutes
              (mkConfigInput (Some "fresh") (Some "u7") None None None)
              (sample_world 0 1000) 1200 empty_204 eq_refl)
    as (stored & _ & _ & ->); [cbn; lia|reflexivity].
Defined.

Lemma getAuthConfig_clearAuthConfig (w : World) :
  getAuthConfig (clearAuthConfig w) = None.
Proof. unfold getAuthConfig, clearAuthConfig. cbn. apply lookup_delete_eq. Qed.

(** Without a stored configuration nothing is asked of the remote end. *)
Lemma no_config_no_call (r : Remote) (w : World) :
  getAuthConfig w = None ->
  getAuthStatus r w = (mkAuthStatus false no_token true None None None, w, [])
  /\ validateToken r w
     = (mkValidation false None (Some NoTokenAvailable) true None, w, [])
  /\ isAuthenticated w = false
  /\ validation_tick r w = (w, []).
Proof.
  intros Hnone. unfold getAuthStatus, validateToken, validation_tick, isAuthenticated.
  rewrite Hnone. auto.
Qed.

(** X8. After [clearAuthConfig] (a logout), whatever was stored and
    whenever the question is asked, the status is "no token, login
    needed", validation reports that no token is available, the periodic
    check does nothing, and none of them calls the remote end. *)
Theorem logout_needs_no_remote_call (w : World) (t : Z) (r : Remote) :
  let w' := at_time t (clearAuthConfig w) in
  getAuthStatus r w' = (mkAuthStatus false no_token true None None None, w', [])
  /\ validateToken r w'
     = (mkValidation false None (Some NoTokenAvailable) true None, w', [])
  /\ isAuthenticated w' = false
  /\ validation_tick r w' = (w', []).
Proof.
  intros w'. apply no_config_no_call. subst w'.
  rewrite getAuthConfig_at_time. apply getAuthConfig_clearAuthConfig.
Qed.

(** The status query on a stale credential is the validation. *)
Lemma stale_status_validates (w : World) (c : AuthConfig) (t0 : Z) (r : Remote) :
  cached w c -> lastValidated c = Some t0 -> 300000 <= now w - t0 ->
  getAuthStatus r w
  = let '(validation, w', effects) := validateToken r w in
    if v_success validation
    then (mkAuthStatus true valid false (Some c) (v_userData validation) None,
          w', effects)
    else (mkAuthStatus false invalid (v_needsLogin validation) None None
            (v_error validation), w', effects).
Proof.
  intros [Hget Htruthy] Hlast Ht. unfold getAuthStatus.
  rewrite Hget, Htruthy, Hlast. cbn [negb].
  change (default 0 (Some t0)) with t0. change TOKEN_CHECK_INTERVAL with 300000.
  now rewrite (proj2 (Z.ltb_ge _ _) Ht).
Qed.

(** X9. A 401 or 403 met by a status query is a lasting logout: that
    query answers unauthenticated with login needed, and every later query,
    at any time and whatever the remote end would say, answers "no token,
    login needed" without calling it. *)
Theorem rejected_token_is_forgotten (w : World) (c : AuthConfig) (t0 : Z)
    (r : Remote) (status : Z) (body : Body) :
  cached w c -> lastValidated c = Some t0 -> 300000 <= now w - t0 ->
  fetched r = HttpResponse status body -> status = 401 \/ status = 403 ->
  let first := (getAuthStatus r w).1.1 in
  let w1 := (getAuthStatus r w).1.2 in
  TokenManager.isAuthenticated first = false /\ needsLogin first = true
  /\ forall t r',
       getAuthStatus r' (at_time t w1)
       = (mkAuthStatus false no_token true None None None, at_time t w1, []).
Proof.
  intros Hcached Hlast Ht Hfetch Hstatus.
  rewrite (stale_status_validates w c t0 r Hcached Hlast Ht).
  destruct (validateToken_cached w c r Hcached) as (token & _ & ->).
  rewrite Hfetch. destruct (not_ok_401_403 status Hstatus) as [-> ->].
  cbn [v_success fst snd TokenManager.isAuthenticated needsLogin v_needsLogin].
  conjuncts; auto.
  intros t r'. apply no_config_no_call.
  rewrite getAuthConfig_at_time. apply getAuthConfig_clearAuthConfig.
Qed.

Lemma rejected_token_is_forgotten_witness :
  (getAuthStatus sample_remote
     (at_time 999
        (getAuthStatus (mkRemote (HttpResponse 401 (NotJson "")) 5)
           (sample_world 0 360000)).1.2)).2 = [].
Proof.
  destruct (rejected_token_is_forgotten (sample_world 0 360000) (sample_config 0) 0
              (mkRemote (HttpResponse 401 (NotJson "")) 5) 401 (NotJson "")
              (sample_world_cached 0 360000) eq_refl)
    as (_ & _ & Hlater); [cbn; lia|reflexivity|left; reflexivity|].
  now rewrite Hlater.
Defined.

Lemma getAuthConfig_updateLastValidated (w : World) (c : AuthConfig) (r : Remote) :
  getAuthConfig w = Some c ->
  getAuthConfig (updateLastValidated (after_fetch r w))
  = Some (with_lastValidated c (now w + elapsed r)).
Proof.
  intros Hget. unfold updateLastValidated.
  change (getAuthConfig (after_fetch r w)) with (getAuthConfig w).
  rewrite Hget. unfold getAuthConfig. cbn [storage after_fetch now].
  apply lookup_insert_eq.
Qed.

(** X10. A successful revalidation opens a new five-minute window: when a
    status query on a stale credential gets a 2xx answer with a user
    object, it answers authenticated, and every query made less than five
    minutes after that answer arrived is served without a remote call. *)
Theorem revalidation_renews_the_window (w : World) (c : AuthConfig) (t0 : Z)
    (r : Remote) (status : Z) (user : UserData) :
  cached w c -> lastValidated c = Some t0 -> 300000 <= now w - t0 ->
  fetched r = HttpResponse status (Json user) -> ok status = true ->
  let first := (getAuthStatus r w).1.1 in
  let w1 := (getAuthStatus r w).1.2 in
  TokenManager.isAuthenticated first = true
  /\ userData first = Some user
  /\ forall t r',
       t - (now w + elapsed r) < 300000 ->
       TokenManager.isAuthenticated (getAuthStatus r' (at_time t w1)).1.1 = true
       /\ (getAuthStatus r' (at_time t w1)).2 = [].
Proof.
  intros Hcached Hlast Ht Hfetch Hok.
  rewrite (stale_status_validates w c t0 r Hcached Hlast Ht).
  destruct (validateToken_cached w c r Hcached) as (token & _ & ->).
  rewrite Hfetch, Hok.
  cbn [v_success v_userData fst snd TokenManager.isAuthenticated userData].
  conjuncts; auto.
  intros t r' Hfresh.
  rewrite (fresh_status (at_time t (updateLastValidated (after_fetch r w)))
             (with_lastValidated c (now w + elapsed r)) (now w + elapsed r) r').
  - split; reflexivity.
  - destruct Hcached as [Hget Htruthy]. split; [|exact Htruthy].
    rewrite getAuthConfig_at_time.
    now apply getAuthConfig_updateLastValidated.
  - reflexivity.
  - exact Hfresh.
Qed.

Lemma revalidation_renews_the_window_witness :
  TokenManager.isAuthenticated (getAuthStatus sample_remote (sample_world 0 360000)).1.1 = true
  /\ (getAuthStatus empty_204
        (at_time 400000
           (getAuthStatus sample_remote (sample_world 0 360000)).1.2)).2 = [].
Proof.
  destruct (revalidation_renews_the_window (sample_world 0 360000) (sample_config 0)
              0 sample_remote 200 (mkUserData "u1")
              (sample_world_cached 0 360000) eq_refl)
    as (Hfirst & _ & Hlater); [cbn; lia|reflexivity|reflexivity|].
  split; [exact Hfirst|].
  apply (Hlater 400000 empty_204). cbn. lia.
Defined.

(** X11. A failure that is not the user's (network error, server error,
    unreadable 2xx answer) met by a status query on a stale credential is
    reported as unauthenticated but without asking for a login, nothing
    stored changes, and the next query, at that time or later, asks the
    remote end again with the same token. *)
Theorem transient_failure_is_retried (w : World) (c : AuthConfig) (t0 : Z)
    (r : Remote) :
  cached w c -> lastValidated c = Some t0 -> 300000 <= now w - t0 ->
  transient (fetched r) ->
  let first := (getAuthStatus r w).1.1 in
  let w1 := (getAuthStatus r w).1.2 in
  TokenManager.isAuthenticated first = false /\ needsLogin first = false
  /\ storage w1 = storage w
  /\ forall t r',
       now w <= t ->
       exists token, authToken c = Some token
         /\ (getAuthStatus r' (at_time t w1)).2 = [FetchUsersMe token].
Proof.
  intros Hcached Hlast Ht Htransient.
  rewrite (stale_status_validates w c t0 r Hcached Hlast Ht).
  destruct (validateToken_cached w c r Hcached) as (token & Htok & ->).
  assert (forall v,
            v_success v = false -> v_needsLogin v = false ->
            let first := (if v_success v
              then (mkAuthStatus true valid false (Some c) (v_userData v) None,
                    after_fetch r w, [FetchUsersMe token])
              else (mkAuthStatus false invalid (v_needsLogin v) None None (v_error v),
                    after_fetch r w, [FetchUsersMe token])) in
            TokenManager.isAuthenticated first.1.1 = false
            /\ needsLogin first.1.1 = false
            /\ storage first.1.2 = storage w
            /\ forall t r', now w <= t ->
                 exists token', authToken c = Some token'
                   /\ (getAuthStatus r' (at_time t first.1.2)).2
                      = [FetchUsersMe token']) as Hcase.
  { intros v Hfail Hlogin. cbv zeta. rewrite Hfail. cbn [fst snd].
    rewrite Hlogin. conjuncts; auto.
    intros t r' Hlater. exists token. split; [exact Htok|].
    assert (cached (at_time t (after_fetch r w)) c) as Hc'
      by (destruct Hcached; split; assumption).
    rewrite (stale_status_validates _ c t0 r' Hc' Hlast) by (cbn; lia).
    pose proof (validateToken_calls_remote r' _ c token Hc' Htok) as Hcall.
    destruct (validateToken r' _) as [[v' w''] eff]. cbn [snd] in Hcall.
    now destruct (v_success v'). }
  destruct (fetched r) as [m|status [u|m]]; cbn [transient] in Htransient.
  - apply (Hcase (mkValidation false None _ false None)); reflexivity.
  - destruct Htransient as (-> & H1 & H3). rewrite (neither_401_403 status H1 H3).
    apply (Hcase (mkValidation false None _ false None)); reflexivity.
  - destruct Htransient as [H1 H3]. destruct (ok status).
    + apply (Hcase (mkValidation false None _ false None)); reflexivity.
    + rewrite (neither_401_403 status H1 H3).
      apply (Hcase (mkValidation false None _ false None)); reflexivity.
Qed.

Lemma transient_failure_is_retried_witness :
  storage (getAuthStatus (mkRemote (NetworkFailure "offline") 7)
             (sample_world 0 360000)).1.2
  = storage (sample_world 0 360000)
  /\ (getAuthStatus sample_remote
        (at_time 360007
           (getAuthStatus (mkRemote (NetworkFailure "offline") 7)
              (sample_world 0 360000)).1.2)).2 = [FetchUsersMe "tok"].
Proof.
  destruct (transient_failure_is_retried (sample_world 0 360000) (sample_config 0) 0
              (mkRemote (NetworkFailure "offline") 7)
              (sample_world_cached 0 360000) eq_refl)
    as (_ & _ & Hsame & Hlater); [cbn; lia|exact I|].
  split; [exact Hsame|].
  destruct (Hlater 360007 sample_remote) as (token & Htok & Hcall); [cbn; lia|].
  cbn in Htok. injection Htok as <-. exact Hcall.
Defined.

End AuthFlowsFacts.

(** ** The frontend bridge and the periodic check *)

Module BridgeFacts.
Import TokenManager AuthFlows TokenManagerFacts AuthFlowsFacts.

Ltac conjuncts := repeat match goal with |- _ /\ _ => split end.

(** Authentication data that [handleAuthSuccess] accepts. *)
Lemma handleAuthSuccess_accepts (d : AuthData) (w : World) :
  truthy (accessToken d) = true -> truthy (ad_userId d) = true ->
  handleAuthSuccess (Some d) w
  = (setAuthConfig (mkConfigInput (accessToken d) (ad_userId d) (ad_frontendUrl d)
                      (ad_backendUrl d) (expiresAt d)) w,
     [NotifyAuthSuccess]).
Proof. intros Ht Hu. unfold handleAuthSuccess. now rewrite Ht, Hu. Qed.

Lemma handleAuthSuccess_rejects (data : option AuthData) (w : World) :
  (forall d, data = Some d ->
     truthy (accessToken d) = false \/ truthy (ad_userId d) = false) ->
  handleAuthSuccess data w = (w, []).
Proof.
  intros Hbad. destruct data as [d|]; [|reflexivity].
  unfold handleAuthSuccess.
  destruct (Hbad d eq_refl) as [-> | ->]; [reflexivity|].
  now rewrite orb_true_r.
Qed.

(** X12. The [postMessage] listener changes what is stored only for a
    message that comes from one of the allowed origins and is either a
    logout or a login carrying both a token and a user id; anything else
    (another origin, incomplete data, another message type) leaves the
    store as it is and notifies nobody. *)
Theorem bridge_ignores_untrusted_messages (origin : string)
    (message : BridgeMessage) (w : World) :
  (origin ∉ FRONTEND_ORIGINS -> handleFrontendMessage origin message w = (w, []))
  /\ (handleFrontendMessage origin message w <> (w, []) ->
      origin ∈ FRONTEND_ORIGINS
      /\ (message = AUTH_LOGOUT
          \/ exists d, message = AUTH_SUCCESS (Some d)
               /\ truthy (accessToken d) = true /\ truthy (ad_userId d) = true)).
Proof.
  unfold handleFrontendMessage. split.
  - intros Hout. now rewrite (bool_decide_eq_false_2 _ Hout).
  - destruct (bool_decide (origin ∈ FRONTEND_ORIGINS)) eqn:Hin; cbn [negb];
      [|congruence].
    apply bool_decide_eq_true in Hin. intros Hchange. split; [exact Hin|].
    destruct message as [[d|]| | |ty].
    + right. exists d. split; [reflexivity|].
      destruct (truthy (accessToken d)) eqn:Ht;
        destruct (truthy (ad_userId d)) eqn:Hu;
        auto; exfalso; apply Hchange; unfold handleAuthSuccess;
        rewrite Ht, Hu; reflexivity.
    + exfalso. now apply Hchange.
    + now left.
    + exfalso. now apply Hchange.
    + exfalso. now apply Hchange.
Qed.

Lemma bridge_ignores_untrusted_messages_witness :
  handleFrontendMessage "https://evil.example" (AUTH_SUCCESS (Some login_data))
    (sample_world 0 1000)
  = (sample_world 0 1000, []).
Proof.
  apply (bridge_ignores_untrusted_messages "https://evil.example"
           (AUTH_SUCCESS (Some login_data)) (sample_world 0 1000)).
  intros Hin. apply (bool_decide_pack _) in Hin. vm_compute in Hin. exact Hin.
Defined.

(** X13. A login announced through the bridge, by [postMessage] from an
    allowed origin or by an external message, is stored and trusted for
    five minutes: status queries in that time answer authenticated with
    the announced token and call nobody. A logout through either channel
    leaves "no token, login needed". *)
Theorem bridge_login_and_logout (origin : string) (d : AuthData) (w : World)
    (t : Z) (r r' : Remote) :
  origin ∈ FRONTEND_ORIGINS ->
  truthy (accessToken d) = true -> truthy (ad_userId d) = true ->
  t - now w < 300000 ->
  (handleExternalMessage (AUTH_SUCCESS (Some d)) r w).1.1.1
  = (handleFrontendMessage origin (AUTH_SUCCESS (Some d)) w).1
  /\ (exists stored,
        authToken stored = accessToken d
        /\ getAuthStatus r'
             (at_time t (handleFrontendMessage origin (AUTH_SUCCESS (Some d)) w).1)
           = (mkAuthStatus true valid false (Some stored) None None,
              at_time t (handleFrontendMessage origin (AUTH_SUCCESS (Some d)) w).1,
              []))
  /\ (handleExternalMessage AUTH_LOGOUT r w).1.1.1
     = (handleFrontendMessage origin AUTH_LOGOUT w).1
  /\ getAuthStatus r' (at_time t (handleFrontendMessage origin AUTH_LOGOUT w).1)
     = (mkAuthStatus false no_token true None None None,
        at_time t (handleFrontendMessage origin AUTH_LOGOUT w).1, []).
Proof.
  intros Hin Ht Hu Hfresh.
  unfold handleExternalMessage, handleFrontendMessage.
  rewrite (bool_decide_eq_true_2 _ Hin). cbn [negb].
  rewrite (handleAuthSuccess_accepts d w Ht Hu). cbn [fst snd handleAuthLogout].
  conjuncts; try reflexivity.
  - exists (mkAuthConfig (accessToken d) (ad_userId d)
              (string_or (ad_frontendUrl d) FRONTEND_BASE)
              (string_or (ad_backendUrl d) BACKEND_BASE)
              (number_or_null (expiresAt d)) (Some (now w))).
    split; [|apply (fresh_status _ _ (now w) r')].
    + reflexivity.
    + split; [rewrite getAuthConfig_at_time; apply getAuthConfig_setAuthConfig|].
      exact Ht.
    + reflexivity.
    + exact Hfresh.
  - apply no_config_no_call.
    rewrite getAuthConfig_at_time. apply getAuthConfig_clearAuthConfig.
Qed.

Lemma bridge_login_and_logout_witness :
  (getAuthStatus empty_204
     (at_time 2000
        (handleFrontendMessage "http://localhost:3400"
           (AUTH_SUCCESS (Some login_data)) (sample_world 0 1000)).1)).2 = []
  /\ TokenManager.isAuthenticated
       (getAuthStatus sample_remote
          (at_time 2000
             (handleFrontendMessage "http://localhost:3400" AUTH_LOGOUT
                (sample_world 0 1000)).1)).1.1 = false.
Proof.
  assert ("http://localhost:3400" ∈ FRONTEND_ORIGINS) as Hin
    by (apply (bool_decide_unpack _); vm_compute; exact I).
  destruct (bridge_login_and_logout "http://localhost:3400" login_data
              (sample_world 0 1000) 2000 sample_remote empty_204 Hin eq_refl eq_refl)
    as (_ & (stored & _ & Hlogin) & _ & _); [cbn; lia|].
  destruct (bridge_login_and_logout "http://localhost:3400" login_data
              (sample_world 0 1000) 2000 sample_remote sample_remote Hin eq_refl eq_refl)
    as (_ & _ & _ & Hlogout); [cbn; lia|].
  rewrite Hlogin, Hlogout. split; reflexivity.
Defined.

(** X14. The listener for external messages answers [success: true] to
    every [AUTH_SUCCESS], also when the data lacks the token or the user id
    and nothing was stored; it asks nothing of the sender's origin. *)
Theorem external_login_always_answers_success (data : option AuthData)
    (r : Remote) (w : World) :
  (handleExternalMessage (AUTH_SUCCESS data) r w).1.2 = Some SuccessTrue
  /\ (handleExternalMessage (AUTH_SUCCESS data) r w).2 = []
  /\ ((forall d, data = Some d ->
         truthy (accessToken d) = false \/ truthy (ad_userId d) = false) ->
      (handleExternalMessage (AUTH_SUCCESS data) r w).1.1 = (w, [])).
Proof.
  unfold handleExternalMessage. conjuncts.
  - now destruct (handleAuthSuccess data w).
  - now destruct (handleAuthSuccess data w).
  - intros Hbad. now rewrite (handleAuthSuccess_rejects data w Hbad).
Qed.

Lemma external_login_always_answers_success_witness :
  handleExternalMessage
    (AUTH_SUCCESS (Some (mkAuthData (Some "tok2") None None None None)))
    sample_remote (sample_world 0 1000)
  = (sample_world 0 1000, [], Some SuccessTrue, []).
Proof.
  destruct (external_login_always_answers_success
              (Some (mkAuthData (Some "tok2") None None None None))
              sample_remote (sample_world 0 1000)) as (Hresp & Heff & Hsame).
  specialize (Hsame ltac:(intros d Hd; injection Hd as <-; right; reflexivity)).
  destruct (handleExternalMessage _ _ _) as [[[w' n] resp] eff].
  cbn [fst snd] in *. injection Hsame as -> ->. now rewrite Hresp, Heff.
Defined.

(** X15. The periodic check calls the remote end only for a stored
    configuration with both a token and a user id: with a token alone it
    does nothing, although a status query on the same stale store does
    validate the token. *)
Theorem periodic_check_needs_user_id (w : World) (c : AuthConfig) (t0 : Z)
    (r : Remote) :
  cached w c -> lastValidated c = Some t0 -> 300000 <= now w - t0 ->
  (truthy (userId c) = false ->
   validation_tick r w = (w, [])
   /\ exists token, (getAuthStatus r w).2 = [FetchUsersMe token])
  /\ (truthy (userId c) = true ->
      validation_tick r w = ((validateToken r w).1.2, (validateToken r w).2)
      /\ exists token, (validation_tick r w).2 = [FetchUsersMe token]).
Proof.
  intros Hcached Hlast Ht. pose proof Hcached as [Hget Htruthy].
  destruct (truthy_token c Htruthy) as [token Htok].
  pose proof (validateToken_calls_remote r w c token Hcached Htok) as Hcall.
  unfold validation_tick, AuthFlows.isAuthenticated. rewrite Hget, Htruthy.
  split; intros Hu; rewrite Hu; cbn [andb].
  - split; [reflexivity|]. exists token.
    rewrite (stale_status_validates w c t0 r Hcached Hlast Ht).
    destruct (validateToken r w) as [[v w'] eff]. cbn [snd] in Hcall.
    now destruct (v_success v).
  - destruct (validateToken r w) as [[v w'] eff]. cbn [fst snd] in *.
    split; [reflexivity|]. now exists token.
Qed.

Lemma periodic_check_needs_user_id_witness :
  validation_tick sample_remote (token_only_world 360000)
  = (token_only_world 360000, [])
  /\ (getAuthStatus sample_remote (token_only_world 360000)).2
     = [FetchUsersMe "tok"].
Proof.
  assert (cached (token_only_world 360000)
            (mkAuthConfig (Some "tok") None FRONTEND_BASE BACKEND_BASE None (Some 0)))
    as Hc by (split; reflexivity).
  destruct (periodic_check_needs_user_id (token_only_world 360000) _ 0 sample_remote
              Hc eq_refl) as [Htick _]; [cbn; lia|].
  destruct (Htick eq_refl) as [Hnothing _]. split; [exact Hnothing|reflexivity].
Defined.

End BridgeFacts.

(** ** Background worker: when an element is delivered *)

Module BackgroundMoreFacts.
Import FeedCollector Background BackgroundMore.

Ltac conjuncts := repeat match goal with |- _ /\ _ => split end.

(** [handleSingleHTMLElement] in terms of the usable token and of the two
    exchanges. *)
Lemma handleSingleHTMLElement_cases (env : Env) (e : ElementData) :
  handleSingleHTMLElement env e
  = match usable_token env with
    | None => (mkResponse false (id e), [CookiesGetAll])
    | Some token =>
        if accepted (users_me env) then
          (mkResponse (accepted (posts_queue env)) (id e),
           [CookiesGetAll; FetchUsersMe token; PostQueue token (id e)])
        else (mkResponse false (id e), [CookiesGetAll; FetchUsersMe token])
    end.
Proof.
  unfold handleSingleHTMLElement, usable_token.
  destruct (cookies env) as [|c rest]; [reflexivity|].
  destruct (String.eqb (value c) ""); [reflexivity|].
  destruct (users_me env) as [|code json]; [reflexivity|]. cbn [accepted].
  destruct (ok code && json); cbn [negb]; [|reflexivity].
  destruct (posts_queue env) as [|code' json']; [reflexivity|]. cbn [accepted].
  now destruct (ok code' && json').
Qed.

(** X16. Without a usable token (no [accessToken] cookie, or an empty value
    in the first cookie returned) the worker answers [success: false] for
    the element and makes no network request at all. *)
Theorem no_token_no_request (env : Env) (e : ElementData) :
  usable_token env = None ->
  handleSingleHTMLElement env e = (mkResponse false (id e), [CookiesGetAll])
  /\ requests (handleSingleHTMLElement env e).2 = [].
Proof.
  intros Hnone. rewrite handleSingleHTMLElement_cases, Hnone. split; reflexivity.
Qed.

Lemma no_token_no_request_witness :
  handleSingleHTMLElement empty_first_cookie (post 0)
  = (mkResponse false (id (post 0)), [CookiesGetAll]).
Proof.
  apply (no_token_no_request empty_first_cookie (post 0)). reflexivity.
Defined.



(** X18. A [CONFIGURE] message replaces the stored credential without any
    check: with a token in it, status queries of the next five minutes
    answer authenticated with that token and call nobody; without a token,
    whatever credential was cached is gone and the status is "no token,
    login needed". *)
Theorem configure_replaces_the_credential (data : ConfigureData)
    (w : TokenManager.World) (t : Z) (r : TokenManager.Remote) :
  (TokenManager.truthy (cd_authToken data) = true ->
   t - TokenManager.now w < 300000 ->
   TokenManager.getAuthStatus r (AuthFlows.at_time t (configure data w))
   = (TokenManager.mkAuthStatus true TokenManager.valid false
        (Some (configured data (TokenManager.now w))) None None,
      AuthFlows.at_time t (configure data w), []))
  /\ (TokenManager.truthy (cd_authToken data) = false ->
      TokenManager.getAuthStatus r (AuthFlows.at_time t (configure data w))
      = (TokenManager.mkAuthStatus false TokenManager.no_token true None None None,
         AuthFlows.at_time t (configure data w), [])).
Proof.
  assert (TokenManager.getAuthConfig (AuthFlows.at_time t (configure data w))
          = Some (configured data (TokenManager.now w))) as Hget.
  { unfold TokenManager.getAuthConfig, AuthFlows.at_time, configure. cbn.
    apply lookup_insert_eq. }
  split.
  - intros Htok Hfresh.
    apply (AuthFlowsFacts.fresh_status _ _ (TokenManager.now w) r).
    + split; [exact Hget|exact Htok].
    + reflexivity.
    + exact Hfresh.
  - intros Hnone. unfold TokenManager.getAuthStatus. rewrite Hget.
    change (TokenManager.authToken (configured data (TokenManager.now w)))
      with (cd_authToken data).
    now rewrite Hnone.
Qed.

Lemma configure_replaces_the_credential_witness :
  TokenManager.isAuthenticated
    (TokenManager.getAuthStatus TokenManager.sample_remote
       (AuthFlows.at_time 2000
          (configure (mkConfigureData None (Some "u1") None None None)
             (TokenManager.sample_world 0 1000)))).1.1 = false
  /\ (TokenManager.getAuthStatus TokenManager.empty_204
        (AuthFlows.at_time 2000
           (configure (mkConfigureData (Some "any") None None None None)
              (TokenManager.sample_world 0 1000)))).2 = [].
Proof.
  split.
  - rewrite (proj2 (configure_replaces_the_credential
               (mkConfigureData None (Some "u1") None None None)
               (TokenManager.sample_world 0 1000) 2000 TokenManager.sample_remote)
               eq_refl).
    reflexivity.
  - rewrite (proj1 (configure_replaces_the_credential
               (mkConfigureData (Some "any") None None None None)
               (TokenManager.sample_world 0 1000) 2000 TokenManager.empty_204)
               eq_refl); [reflexivity|cbn; lia].
Defined.

End BackgroundMoreFacts.

(** ** CrossContextMessenger: exhausted retries and the fan-out *)

Module MessageServiceMoreFacts.
Import MessageService MessageServiceMore.

Ltac conjuncts := repeat match goal with |- _ /\ _ => split end.

Lemma backoff_sum (n a : nat) :
  foldr Z.add 0 (map (fun k => 1000 * Z.of_nat k) (seq a n))
  = 500 * Z.of_nat n * (2 * Z.of_nat a + Z.of_nat n - 1).
Proof.
  revert a. induction n as [|n IH]; intros a; [reflexivity|].
  cbn [seq map foldr]. rewrite IH. lia.
Qed.

Section AllFail.
Variables (retries : nat) (timeout : Z) (world : nat -> Send).

(** When every attempt that is left fails to communicate, the loop uses
    them all, pauses after each but the last, and throws the last error. *)
Lemma attempts_all_fail (left : nat) :
  forall attempt lastError,
    (attempt + left = retries)%nat ->
    (forall k, (k < left)%nat ->
       communication_failure (race timeout (world (attempt + k)%nat))) ->
    (attempts left attempt retries timeout world lastError).1
    = Throw (match left with
             | O => lastError
             | S l => error_of (race timeout (world (attempt + l)%nat))
             end)
    /\ sends (attempts left attempt retries timeout world lastError).2 = left
    /\ waits (attempts left attempt retries timeout world lastError).2
       = map (fun k => 1000 * Z.of_nat k) (seq (S attempt) (left - 1)).
Proof.
  induction left as [|left IH]; intros attempt lastError Hsum Hfail.
  - cbn. auto.
  - cbn [attempts].
    pose proof (Hfail 0%nat ltac:(lia)) as H0. rewrite Nat.add_0_r in H0.
    destruct (race timeout (world attempt)) as [response|e] eqn:Hrace;
      [contradiction|].
    destruct (IH (S attempt) (Some e) ltac:(lia)) as (Hres & Hsends & Hwaits).
    { intros k Hk. specialize (Hfail (S k) ltac:(lia)).
      now replace (attempt + S k)%nat with (S attempt + k)%nat in Hfail by lia. }
    destruct (attempts left (S attempt) retries timeout world (Some e))
      as [res tr] eqn:Hrec.
    cbn [fst snd] in *.
    destruct (Nat.ltb_spec attempt (retries - 1)) as [Hlt|Hge].
    + destruct left as [|l]; [lia|]. conjuncts.
      * rewrite Hres.
        now replace (S attempt + l)%nat with (attempt + S l)%nat by lia.
      * change (S (sends tr) = S (S l)). now rewrite Hsends.
      * cbn [app waits]. rewrite Hwaits.
        replace (S (S l) - 1)%nat with (S (S l - 1)) by lia.
        cbn [seq map]. f_equal. lia.
    + assert (left = 0)%nat as -> by lia. cbn in Hrec. injection Hrec as <- <-.
      rewrite Nat.add_0_r, Hrace. cbn. auto.
Qed.

End AllFail.

(** X19. When no attempt gets through, [_sendMessage] makes exactly the
    configured number of sends, pauses 1000, 2000, ... ms after each but the
    last (500 * retries * (retries - 1) ms in all), and throws the error of
    the last attempt. *)
Theorem exhausted_retries_throw_last_error (options : Options) (world : nat -> Send) :
  (0 < retries_of options)%nat ->
  (forall k, (k < retries_of options)%nat ->
     communication_failure (race (timeout_of options) (world k))) ->
  (_sendMessage options world).1
  = Throw (error_of (race (timeout_of options)
                       (world (retries_of options - 1)%nat)))
  /\ sends (_sendMessage options world).2 = retries_of options
  /\ waits (_sendMessage options world).2
     = map (fun k => 1000 * Z.of_nat k) (seq 1 (retries_of options - 1))
  /\ total_wait (_sendMessage options world).2
     = 500 * Z.of_nat (retries_of options) * (Z.of_nat (retries_of options) - 1).
Proof.
  intros Hpos Hfail. unfold _sendMessage, total_wait.
  destruct (attempts_all_fail (retries_of options) (timeout_of options) world
              (retries_of options) 0 None eq_refl Hfail) as (Hres & Hsends & Hwaits).
  destruct (retries_of options) as [|n] eqn:Hn; [lia|].
  rewrite Hres. cbn [Nat.add]. conjuncts.
  - now replace (S n - 1)%nat with n by lia.
  - exact Hsends.
  - exact Hwaits.
  - rewrite Hwaits, backoff_sum. lia.
Qed.

Lemma exhausted_retries_throw_last_error_witness :
  (_sendMessage (mkOptions (Some 5000) (Some 3%nat)) nobody_answers).1
  = Throw (Some (Timeout 5000))
  /\ total_wait (_sendMessage (mkOptions (Some 5000) (Some 3%nat)) nobody_answers).2
     = 3000.
Proof.
  destruct (exhausted_retries_throw_last_error
              (mkOptions (Some 5000) (Some 3%nat)) nobody_answers)
    as (Hres & _ & _ & Htotal); [cbn; lia|intros k _; exact I|].
  split; [exact Hres|exact Htotal].
Defined.

(** X20. Without options a message is sent exactly once and never retried:
    the call returns the response or throws the error of that one send,
    with no pause. With [retries: 0] nothing is sent at all and the call
    throws [undefined]. *)
Theorem default_options_send_once (options : Options) (world : nat -> Send) :
  (retries options = None \/ retries options = Some 1%nat ->
   (_sendMessage options world).2 = [Sent 0]
   /\ (_sendMessage options world).1
      = match race (timeout_of options) (world 0%nat) with
        | Fulfilled response => Return response
        | RejectedWith e => Throw (Some e)
        end)
  /\ (retries options = Some 0%nat ->
      _sendMessage options world = (Throw None, []))
  /\ (timeout options = None -> timeout_of options = 5000).
Proof.
  unfold _sendMessage, retries_of, timeout_of. conjuncts.
  - intros [-> | ->]; cbn; destruct (race _ (world 0%nat)); auto.
  - intros ->. reflexivity.
  - intros ->. reflexivity.
Qed.

Lemma default_options_send_once_witness :
  _sendMessage no_options nobody_answers
  = (Throw (Some (Timeout 5000)), [Sent 0])
  /\ _sendMessage (mkOptions None (Some 0%nat)) nobody_answers = (Throw None, []).
Proof.
  destruct (default_options_send_once no_options nobody_answers) as (Hone & _ & _).
  destruct (Hone (or_introl eq_refl)) as [Htr Hres].
  destruct (default_options_send_once (mkOptions None (Some 0%nat)) nobody_answers)
    as (_ & Hzero & _).
  split; [|exact (Hzero eq_refl)].
  destruct (_sendMessage no_options nobody_answers) as [res tr].
  cbn [fst snd] in *. now rewrite Htr, Hres.
Defined.

(** *** Fan-out *)

Lemma allSettled_map (type data : string) (options : Options)
    (world : Z -> TabSend) (ids : list Z) :
  (forall tabId, tabId ∈ ids -> world tabId <> TabNeverSettles) ->
  exists responses,
    allSettled (map (fun tabId =>
                       (sendToContent tabId type data options (world tabId)).1) ids)
    = Some responses
    /\ map Some responses = map (fun tabId => entry_of (world tabId)) ids.
Proof.
  induction ids as [|tabId rest IH]; intros Hsettle; [now exists []|].
  destruct IH as (responses & Hrest & Hentries).
  { intros t Ht. apply Hsettle. now right. }
  pose proof (Hsettle tabId ltac:(left)) as Hthis.
  cbn [map allSettled]. unfold sendToContent at 1.
  destruct (world tabId) as [response|message|]; [| |congruence];
    cbn [fst allSettled]; rewrite Hrest; cbn [option_map];
    eexists; (split; [reflexivity|]); cbn [map entry_of]; now rewrite Hentries.
Qed.

(** X21. [sendToAllContent] sends to every tab that the query returned,
    once each and in order, whatever the other sends do; when every send
    settles, it returns one entry per tab, the entry of a tab being the
    outcome of the send to that tab (fulfilled with its response or
    rejected with its error), and it does not throw. *)
Theorem fan_out_reaches_every_tab (type data : string) (options : Options)
    (ids : list Z) (world : Z -> TabSend) :
  (sendToAllContent type data options (Tabs ids) world).2
  = map (fun tabId => TabsSendMessage tabId type data) ids
  /\ ((forall tabId, tabId ∈ ids -> world tabId <> TabNeverSettles) ->
      exists responses,
        (sendToAllContent type data options (Tabs ids) world).1 = AllReturn responses
        /\ length responses = length ids
        /\ forall i tabId, ids !! i = Some tabId ->
             entry_of (world tabId) = responses !! i).
Proof.
  unfold sendToAllContent. rewrite !map_map. split.
  - assert (concat (map (fun tabId =>
              (sendToContent tabId type data options (world tabId)).2) ids)
            = map (fun tabId => TabsSendMessage tabId type data) ids) as Hev.
    { induction ids as [|t rest IH]; [reflexivity|]. cbn [map concat].
      rewrite IH. unfold sendToContent. now destruct (world t). }
    now destruct (allSettled _).
  - intros Hsettle.
    destruct (allSettled_map type data options world ids Hsettle)
      as (responses & -> & Hentries).
    exists responses. split; [reflexivity|].
    assert (length responses = length ids) as Hlen.
    { apply (f_equal length) in Hentries. now rewrite !length_map in Hentries. }
    split; [exact Hlen|].
    intros i tabId Hi.
    assert (map Some responses !! i = Some (entry_of (world tabId))) as Hlook.
    { rewrite Hentries. rewrite list_lookup_fmap. now rewrite Hi. }
    rewrite list_lookup_fmap in Hlook.
    destruct (responses !! i) as [entry|]; cbn in Hlook; [|discriminate].
    now injection Hlook as <-.
Qed.

Lemma fan_out_reaches_every_tab_witness :
  sendToAllContent "PING" "" no_options (Tabs [11; 12; 13]) second_tab_unreachable
  = (AllReturn [fulfilled (Some (Payload "ok"));
                rejected "Receiving end does not exist";
                fulfilled (Some (Payload "ok"))],
     [TabsSendMessage 11 "PING" ""; TabsSendMessage 12 "PING" "";
      TabsSendMessage 13 "PING" ""]).
Proof.
  destruct (fan_out_reaches_every_tab "PING" "" no_options [11; 12; 13]
              second_tab_unreachable) as [Hev Hall].
  destruct Hall as (responses & Hres & _).
  { intros tabId _. unfold second_tab_unreachable.
    destruct (tabId =? 12); discriminate. }
  destruct (sendToAllContent _ _ _ _ _) as [res tr] eqn:Hrun.
  cbn [fst snd] in *. vm_compute in Hrun. injection Hrun as <- <-. reflexivity.
Defined.

End MessageServiceMoreFacts.

(** ** Transport: the retry loop of [makeRequest] *)

Module ApiClientFacts.
Import ApiClient.

Ltac conjuncts := repeat match goal with |- _ /\ _ => split end.


Section Loop.
Variables (cfg : Config) (world : nat -> Fetch).


End Loop.





End ApiClientFacts.

(** ** SyncService *)

Module SyncServiceFacts.
Import SyncService.

Ltac conjuncts := repeat match goal with |- _ /\ _ => split end.

Lemma current_update_current (f : Session -> Session) (s : Service)
    (session : Session) :
  current s = Some session -> current (update_current f s) = Some (f session).
Proof.
  unfold current, update_current. destruct (currentSync s) as [a|] eqn:Hc;
    [|discriminate].
  intros Hs. cbn [currentSync heap]. rewrite lookup_alter_eq, Hs. reflexivity.
Qed.

Lemma update_current_keeps (f : Session -> Session) (s : Service) :
  currentSync (update_current f s) = currentSync s
  /\ syncHistory (update_current f s) = syncHistory s
  /\ stored (update_current f s) = stored s.
Proof. unfold update_current. destruct (currentSync s) eqn:E; cbn; conjuncts; auto. Qed.

Lemma update_current_is_Some (f : Session -> Session) (s : Service) (a : nat) :
  is_Some (heap s !! a) -> is_Some (heap (update_current f s) !! a).
Proof.
  unfold update_current. destruct (currentSync s) as [b|]; cbn; [|auto].
  intros H. apply lookup_alter_is_Some. exact H.
Qed.

Lemma update_current_other (f : Session -> Session) (s : Service) (a b : nat) :
  currentSync s = Some b -> a <> b ->
  heap (update_current f s) !! a = heap s !! a.
Proof.
  intros Hc Hab. unfold update_current. rewrite Hc. cbn.
  apply lookup_alter_ne. congruence.
Qed.

Lemma active_current (s : Service) :
  active s = true ->
  exists session, current s = Some session /\ completed session = false.
Proof.
  unfold active. destruct (current s) as [session|]; [|discriminate].
  intros H. exists session. split; [reflexivity|]. now apply negb_true_iff.
Qed.

Lemma current_active (s : Service) (session : Session) :
  current s = Some session -> active s = negb (completed session).
Proof. unfold active. now intros ->. Qed.

Lemma current_with_history (s : Service) (h : list nat) :
  current (mkService (heap s) (currentSync s) h (stored s)) = current s.
Proof. reflexivity. Qed.

Lemma new_address_is_new (s : Service) : heap s !! new_address s = None.
Proof.
  unfold new_address. apply (not_elem_of_dom (D := gset nat)).
  apply (is_fresh (dom (heap s))).
Qed.

(** An accepted call creates its session at an address not in use. *)
Lemma startSync_enter_idle (env : Env) (s : Service) :
  active s = false ->
  startSync_enter env s
  = inr (new_address s,
         mkService
           (<[new_address s := createSyncSession (sessionId env) (startedAt env)]>
              (heap s))
           (Some (new_address s)) (syncHistory s) (stored s)).
Proof. intros H. unfold startSync_enter. now rewrite H. Qed.

Lemma current_after_insert (s : Service) (session : Session) :
  current (mkService (<[new_address s := session]> (heap s))
             (Some (new_address s)) (syncHistory s) (stored s))
  = Some session.
Proof. unfold current. cbn. apply lookup_insert_eq. Qed.

(** *** The heap invariant *)

Lemma well_formed_new_service : well_formed new_service.
Proof.
  split.
  - intros a Ha. cbn in Ha. now apply elem_of_nil in Ha.
  - intros a Ha. discriminate.
Qed.

Lemma well_formed_update_current (f : Session -> Session) (s : Service) :
  well_formed s -> well_formed (update_current f s).
Proof.
  intros [Hh Hc]. destruct (update_current_keeps f s) as (Ec & Eh & _).
  split.
  - intros a Ha. rewrite Eh in Ha. apply update_current_is_Some, Hh, Ha.
  - intros a Ha. rewrite Ec in Ha. apply update_current_is_Some, Hc, Ha.
Qed.

Lemma well_formed_startSync (env : Env) (s : Service) :
  well_formed s -> well_formed (startSync env s).2.
Proof.
  intros Hwf. unfold startSync.
  destruct (active s) eqn:Hact.
  - unfold startSync_enter. rewrite Hact. cbn [snd].
    now apply well_formed_update_current.
  - rewrite (startSync_enter_idle env s Hact).
    set (a := new_address s).
    set (s1 := mkService _ _ _ _).
    assert (well_formed s1) as Hwf1.
    { destruct Hwf as [Hh Hc]. split.
      - intros b Hb. cbn in Hb. cbn. destruct (decide (b = a)) as [->|Hne].
        + rewrite lookup_insert_eq. eauto.
        + rewrite lookup_insert_ne by congruence. now apply Hh.
      - intros b Hb. cbn in Hb. injection Hb as <-. cbn.
        rewrite lookup_insert_eq. eauto. }
    unfold startSync_resume.
    destruct (ensureLinkedInTab (tabs env)) as [m|tabId]; cbn [snd].
    + now apply well_formed_update_current.
    + destruct (initiateScraping (start env)) as [m|response]; cbn [snd].
      * now apply well_formed_update_current.
      * destruct Hwf1 as [Hh Hc]. split.
        -- intros b Hb. cbn in Hb. cbn [heap].
           apply lookup_alter_is_Some.
           apply elem_of_app in Hb as [Hb|Hb].
           ++ now apply Hh.
           ++ apply list_elem_of_singleton in Hb. subst b. now apply Hc.
        -- intros b Hb. cbn in Hb. cbn [heap].
           apply lookup_alter_is_Some. now apply Hc.
Qed.

Lemma well_formed_cancelSync (t : Z) (found : option (list (Z * StopOutcome)))
    (s : Service) :
  well_formed s -> well_formed (cancelSync t found s).1.2.
Proof.
  intros Hwf. unfold cancelSync.
  destruct (negb (active s)); [exact Hwf|].
  destruct found; [|exact Hwf]. cbn. now apply well_formed_update_current.
Qed.

Lemma well_formed_updateSyncStats (u : StatsUpdate) (s : Service) :
  well_formed s -> well_formed (updateSyncStats u s).
Proof. intros Hwf. exact Hwf. Qed.

Lemma well_formed_handleSyncCompletion (t : Z) (date data : string)
    (posts : option Z) (s : Service) :
  well_formed s -> well_formed (handleSyncCompletion t date data posts s).
Proof.
  intros Hwf. unfold handleSyncCompletion.
  destruct (current s); [|exact Hwf].
  cbv zeta. apply well_formed_updateSyncStats.
  now apply well_formed_update_current.
Qed.

Lemma well_formed_handleSyncError (t : Z) (date message : string) (s : Service) :
  well_formed s -> well_formed (handleSyncError t date message s).
Proof.
  intros Hwf. unfold handleSyncError.
  destruct (current s); [|exact Hwf].
  cbv zeta. apply well_formed_updateSyncStats.
  now apply well_formed_update_current.
Qed.

(** *** Lists *)

Lemma omap_total_length {A B} (f : A -> option B) (l : list A) :
  (forall a, a ∈ l -> is_Some (f a)) -> length (omap f l) = length l.
Proof.
  induction l as [|a l IH]; intros H; [reflexivity|].
  cbn. destruct (H a) as [b Hb]; [left|]. rewrite Hb. cbn. f_equal.
  apply IH. intros c Hc. apply H. now right.
Qed.

Lemma omap_total_drop {A B} (f : A -> option B) (l : list A) (n : nat) :
  (forall a, a ∈ l -> is_Some (f a)) -> omap f (drop n l) = drop n (omap f l).
Proof.
  revert n. induction l as [|a l IH]; intros n H.
  - now destruct n.
  - destruct n as [|n]; [reflexivity|].
    cbn. destruct (H a) as [b Hb]; [left|]. rewrite Hb. cbn.
    apply IH. intros c Hc. apply H. now right.
Qed.

Lemma slice_last_snoc {A} (l : list A) (a : A) : slice_last 1 (l ++ [a]) = [a].
Proof.
  unfold slice_last. rewrite length_app. cbn [length].
  replace (length l + 1 - 1)%nat with (length l) by lia.
  apply drop_app_length.
Qed.

(** X24. Whatever happens in it (refused, no tab, no acknowledgement,
    success), a call of [startSync] leaves the current session completed:
    right after it [cancelSync] finds nothing to cancel and sends no
    message, and a further [startSync] is never refused as already in
    progress. *)
Theorem startSync_leaves_the_service_idle (env : Env) (s : Service) :
  let s' := (startSync env s).2 in
  (exists session, current s' = Some session /\ completed session = true)
  /\ (forall t found, cancelSync t found s' = (false, s', []))
  /\ (forall env', (startSync env' s').1 <> Throws "Sync already in progress").
Proof.
  intros s'.
  assert (exists session, current s' = Some session /\ completed session = true)
    as Hdone.
  { subst s'. unfold startSync.
    destruct (active s) eqn:Hact.
    - destruct (active_current s Hact) as (session & Hcur & _).
      unfold startSync_enter. rewrite Hact. cbn [snd].
      eexists. split; [apply current_update_current; exact Hcur|reflexivity].
    - rewrite (startSync_enter_idle env s Hact).
      pose proof (current_after_insert s
                    (createSyncSession (sessionId env) (startedAt env))) as Hcur.
      unfold startSync_resume.
      destruct (ensureLinkedInTab (tabs env)) as [m|tabId]; cbn [snd].
      + eexists. split; [apply current_update_current; exact Hcur|reflexivity].
      + destruct (initiateScraping (start env)) as [m|response]; cbn [snd].
        * eexists. split; [apply current_update_current; exact Hcur|reflexivity].
        * eexists. split.
          { unfold current. cbn [currentSync heap].
            rewrite lookup_alter_eq, lookup_insert_eq. reflexivity. }
          reflexivity. }
  destruct Hdone as (session & Hcur & Hcompleted).
  assert (active s' = false) as Hidle.
  { rewrite (current_active s' session Hcur), Hcompleted. reflexivity. }
  conjuncts.
  - eauto.
  - intros t found. unfold cancelSync. now rewrite Hidle.
  - intros env'. unfold startSync. rewrite (startSync_enter_idle env' s' Hidle).
    unfold startSync_resume.
    destruct (ensureLinkedInTab (tabs env')) as [m|tabId] eqn:Htab.
    + destruct (tabs env'); try discriminate. injection Htab as <-.
      cbn. discriminate.
    + destruct (start env') as [[] [e|]| |m]; cbn; try discriminate.
      all: intros H; injection H as H; discriminate.
Qed.

(** X25. A call of [startSync] made while a session is running is refused
    with [Sync already in progress], and the refusal closes the running
    session with that error, leaving the history alone. The call after
    that is therefore accepted, although the first run was never stopped. *)
Theorem refused_start_closes_the_running_session
    (env : Env) (s : Service) (session : Session) :
  current s = Some session -> completed session = false ->
  let s' := (startSync env s).2 in
  (startSync env s).1 = Throws "Sync already in progress"
  /\ current s'
     = Some (mkSession (id session) (startTime session) (Some (finishedAt env))
               (phase session) true (Some "Sync already in progress"%string)
               (result session))
  /\ syncHistory s' = syncHistory s
  /\ (forall env' tabId response,
        ensureLinkedInTab (tabs env') = inr tabId ->
        initiateScraping (start env') = inr response ->
        (startSync env' s').1 = Returns response).
Proof.
  intros Hcur Hrun s'.
  assert (active s = true) as Hact.
  { rewrite (current_active s session Hcur), Hrun. reflexivity. }
  assert (startSync env s
          = (Throws "Sync already in progress",
             update_current
               (fail_with "Sync already in progress" (finishedAt env)) s)) as E.
  { unfold startSync, startSync_enter. now rewrite Hact. }
  subst s'. rewrite E. cbn [fst snd].
  pose proof (current_update_current
                (fail_with "Sync already in progress" (finishedAt env)) s session
                Hcur) as Hcur'.
  conjuncts.
  - reflexivity.
  - exact Hcur'.
  - apply update_current_keeps.
  - intros env' tabId response Htab Hstart.
    unfold startSync. rewrite startSync_enter_idle.
    + unfold startSync_resume. rewrite Htab, Hstart. reflexivity.
    + rewrite (current_active _ _ Hcur'). reflexivity.
Qed.

Lemma refused_start_closes_the_running_session_witness :
  (startSync (good_env 150 160 "sync_b") in_flight).1
  = Throws "Sync already in progress"
  /\ current (startSync (good_env 150 160 "sync_b") in_flight).2
     = Some (mkSession "sync_a" 100 (Some 160) INITIALIZING true
               (Some "Sync already in progress"%string) None).
Proof.
  pose proof (refused_start_closes_the_running_session
                (good_env 150 160 "sync_b") in_flight
                (createSyncSession "sync_a" 100) eq_refl eq_refl) as H.
  cbv zeta in H. destruct H as (H1 & H2 & _). split; [exact H1|exact H2].
Defined.

(** X26. The history holds the session object itself, not a copy. After
    an acknowledged [startSync] the last history entry is the new session,
    completed and without error; when the page later reports an error or
    the completion, that same entry shows the new end time, phase and
    error. *)
Theorem history_entry_follows_its_session
    (env : Env) (s : Service) (tabId : Z) (response : string)
    (t : Z) (date message data : string) (posts : option Z) :
  active s = false ->
  ensureLinkedInTab (tabs env) = inr tabId ->
  initiateScraping (start env) = inr response ->
  let s1 := (startSync env s).2 in
  let entry (endTime : Z) (phase : Phase) (error : option string)
            (result : string) :=
    entry_of (mkSession (sessionId env) (startedAt env) (Some endTime) phase
                true error (Some result)) in
  getSyncHistory 1 s1 = [entry (finishedAt env) INITIALIZING None response]
  /\ getSyncHistory 1 (handleSyncError t date message s1)
     = [entry t ERROR (Some message) response]
  /\ getSyncHistory 1 (handleSyncCompletion t date data posts s1)
     = [entry t COMPLETED None data].
Proof.
  intros Hidle Htab Hstart s1 entry.
  set (a := new_address s).
  set (done := mkSession (sessionId env) (startedAt env) (Some (finishedAt env))
                 INITIALIZING true None (Some response)).
  assert (currentSync s1 = Some a /\ syncHistory s1 = syncHistory s ++ [a]
          /\ heap s1 !! a = Some done) as (Hc & Hh & Ha).
  { subst s1. unfold startSync. rewrite (startSync_enter_idle env s Hidle).
    unfold startSync_resume. rewrite Htab, Hstart. cbn.
    conjuncts; try reflexivity.
    fold a. rewrite lookup_alter_eq, lookup_insert_eq. reflexivity. }
  assert (current s1 = Some done) as Hcur.
  { unfold current. now rewrite Hc. }
  assert (forall s2 session, syncHistory s2 = syncHistory s1 ->
            heap s2 !! a = Some session ->
            getSyncHistory 1 s2 = [entry_of session]) as Hlast.
  { intros s2 session E2 H2. unfold getSyncHistory.
    rewrite E2, Hh, slice_last_snoc. cbn. now rewrite H2. }
  conjuncts.
  - now apply Hlast.
  - apply Hlast.
    + unfold handleSyncError. rewrite Hcur. cbn.
      apply update_current_keeps.
    + unfold handleSyncError. rewrite Hcur. cbn [updateSyncStats heap].
      unfold update_current. rewrite Hc. cbn [heap].
      rewrite lookup_alter_eq, Ha. reflexivity.
  - apply Hlast.
    + unfold handleSyncCompletion. rewrite Hcur. cbn.
      apply update_current_keeps.
    + unfold handleSyncCompletion. rewrite Hcur. cbn [updateSyncStats heap].
      unfold update_current. rewrite Hc. cbn [heap].
      rewrite lookup_alter_eq, Ha. reflexivity.
Qed.

Lemma history_entry_follows_its_session_witness :
  let s1 := (startSync (good_env 100 130 "sync_a") new_service).2 in
  getSyncHistory 1 s1
  = [mkHistoryEntry "sync_a" 100 (Some 130) (Some 30) INITIALIZING true None]
  /\ getSyncHistory 1 (handleSyncError 900 "2024-01-01" "feed not found" s1)
     = [mkHistoryEntry "sync_a" 100 (Some 900) (Some 800) ERROR true
          (Some "feed not found"%string)].
Proof.
  pose proof (history_entry_follows_its_session
                (good_env 100 130 "sync_a") new_service 5 "success"
                900 "2024-01-01" "feed not found" "done" None
                eq_refl eq_refl eq_refl) as H.
  cbv zeta in H. destruct H as (H1 & H2 & _). split; [exact H1|exact H2].
Defined.

(** X27. [getSyncHistory] never loses an entry: asked for [0] entries it
    returns the whole history, and asked for [limit > 0] it returns the
    last [limit] of them in order, or all when there are fewer. *)
Theorem getSyncHistory_returns_the_latest (s : Service) :
  well_formed s ->
  let n := length (syncHistory s) in
  length (getSyncHistory 0 s) = n
  /\ (forall limit, (0 < limit)%nat ->
        getSyncHistory limit s = drop (n - limit) (getSyncHistory 0 s)
        /\ length (getSyncHistory limit s) = (limit `min` n)%nat).
Proof.
  intros [Hh _] n.
  assert (forall a, a ∈ syncHistory s -> is_Some (entry_of <$> heap s !! a))
    as Htotal.
  { intros a Ha. destruct (Hh a Ha) as [session E]. rewrite E. cbn. eauto. }
  assert (length (getSyncHistory 0 s) = n) as Hall.
  { unfold getSyncHistory, slice_last. now apply omap_total_length. }
  split; [exact Hall|].
  intros limit Hpos.
  assert (getSyncHistory limit s = drop (n - limit) (getSyncHistory 0 s)) as E.
  { unfold getSyncHistory, slice_last. destruct limit as [|k]; [lia|].
    fold n. now apply omap_total_drop. }
  split; [exact E|].
  rewrite E, length_drop, Hall. lia.
Qed.

Lemma getSyncHistory_returns_the_latest_witness :
  length (getSyncHistory 0 three_sessions) = 3%nat
  /\ h_id <$> getSyncHistory 2 three_sessions = ["sync_b"; "sync_c"]%string.
Proof.
  assert (well_formed three_sessions) as Hwf.
  { split.
    - intros a Ha. cbn in Ha.
      repeat (apply elem_of_cons in Ha as [->|Ha]); try (eexists; reflexivity).
      now apply elem_of_nil in Ha.
    - intros a Ha. cbn in Ha. injection Ha as <-. eexists. reflexivity. }
  pose proof (getSyncHistory_returns_the_latest three_sessions Hwf) as H.
  cbv zeta in H. destruct H as [H0 H]. split; [exact H0|].
  destruct (H 2%nat ltac:(lia)) as [E _]. rewrite E. reflexivity.
Defined.

Lemma getSyncHistory_last (s : Service) (h : list nat) (a : nat)
    (session : Session) :
  syncHistory s = h ++ [a] -> heap s !! a = Some session ->
  getSyncHistory 1 s = [entry_of session].
Proof.
  intros Eh Ea. unfold getSyncHistory. rewrite Eh, slice_last_snoc.
  cbn. now rewrite Ea.
Qed.

(** X28. Cancelling while [startSync] still waits for the page does not
    stop that call: every LinkedIn tab is sent [STOP_SCRAPING], whether or
    not the send succeeds, and the session is marked cancelled; when the
    page then acknowledges, [startSync] returns the acknowledgement as
    usual and files the session in the history, still carrying the error
    [Cancelled by user] and the phase [ERROR]. *)
Theorem cancelled_start_still_succeeds
    (env : Env) (s : Service) (tabId : Z) (response : string)
    (t : Z) (found : list (Z * StopOutcome)) :
  active s = false ->
  ensureLinkedInTab (tabs env) = inr tabId ->
  initiateScraping (start env) = inr response ->
  let filed :=
    mkSession (sessionId env) (startedAt env) (Some (finishedAt env)) ERROR true
      (Some "Cancelled by user"%string) (Some response) in
  exists a s1 s2 s3,
    startSync_enter env s = inr (a, s1)
    /\ cancelSync t (Some found) s1
       = (true, s2, map (fun tab => StopScraping tab.1) found)
    /\ startSync_resume env a s2 = (Returns response, s3)
    /\ current s3 = Some filed
    /\ getSyncHistory 1 s3 = [entry_of filed].
Proof.
  intros Hidle Htab Hstart filed.
  pose proof (current_after_insert s
                (createSyncSession (sessionId env) (startedAt env))) as Hcur1.
  eexists _, _, _, _. split; [apply startSync_enter_idle, Hidle|].
  split.
  { unfold cancelSync. rewrite (current_active _ _ Hcur1). reflexivity. }
  split.
  { unfold startSync_resume. rewrite Htab, Hstart. reflexivity. }
  split.
  - unfold current. cbn.
    rewrite !lookup_alter_eq, lookup_insert_eq. reflexivity.
  - apply (getSyncHistory_last _ (syncHistory s) (new_address s)).
    + reflexivity.
    + cbn. rewrite !lookup_alter_eq, lookup_insert_eq. reflexivity.
Qed.

Lemma cancelled_start_still_succeeds_witness :
  exists a s1 s2 s3,
    startSync_enter (good_env 100 130 "sync_a") new_service = inr (a, s1)
    /\ cancelSync 110 (Some [(5, Stopped); (8, StopFails)]) s1
       = (true, s2, [StopScraping 5; StopScraping 8])
    /\ startSync_resume (good_env 100 130 "sync_a") a s2
       = (Returns "success", s3)
    /\ current s3
       = Some (mkSession "sync_a" 100 (Some 130) ERROR true
                 (Some "Cancelled by user"%string) (Some "success"%string))
    /\ getSyncHistory 1 s3
       = [mkHistoryEntry "sync_a" 100 (Some 130) (Some 30) ERROR true
            (Some "Cancelled by user"%string)].
Proof.
  exact (cancelled_start_still_succeeds (good_env 100 130 "sync_a") new_service
           5 "success" 110 [(5, Stopped); (8, StopFails)]
           eq_refl eq_refl eq_refl).
Defined.

(** X29. A failure of [startSync] is written to whatever session is
    current when the failure arrives, not to the session the call created.
    If a start is cancelled while it waits and a second start is accepted
    in the meantime, the first call's failure closes the second session
    with the first call's error and end time; the first session keeps its
    cancellation. *)
Theorem late_failure_closes_the_next_session
    (envA envB : Env) (s : Service) (tabId : Z) (message : string)
    (t : Z) (found : list (Z * StopOutcome)) :
  active s = false ->
  ensureLinkedInTab (tabs envA) = inr tabId ->
  initiateScraping (start envA) = inl message ->
  exists a s1 s2 events b s3 s4,
    startSync_enter envA s = inr (a, s1)
    /\ cancelSync t (Some found) s1 = (true, s2, events)
    /\ startSync_enter envB s2 = inr (b, s3)
    /\ startSync_resume envA a s3 = (Throws message, s4)
    /\ a <> b
    /\ heap s4 !! a
       = Some (mkSession (sessionId envA) (startedAt envA) (Some t) ERROR true
                 (Some "Cancelled by user"%string) None)
    /\ current s4
       = Some (mkSession (sessionId envB) (startedAt envB)
                 (Some (finishedAt envA)) INITIALIZING true (Some message) None).
Proof.
  intros Hidle Htab Hstart.
  set (a := new_address s).
  set (s1 := mkService
               (<[a := createSyncSession (sessionId envA) (startedAt envA)]>
                  (heap s))
               (Some a) (syncHistory s) (stored s)).
  set (cancel := fun session : Session =>
         mkSession (id session) (startTime session) (Some t) ERROR true
           (Some "Cancelled by user"%string) (result session)).
  set (s2 := update_current cancel s1).
  set (b := new_address s2).
  set (s3 := mkService
               (<[b := createSyncSession (sessionId envB) (startedAt envB)]>
                  (heap s2))
               (Some b) (syncHistory s2) (stored s2)).
  set (s4 := update_current (fail_with message (finishedAt envA)) s3).
  assert (current s1 = Some (createSyncSession (sessionId envA) (startedAt envA)))
    as Hcur1 by apply current_after_insert.
  assert (current s2
          = Some (cancel (createSyncSession (sessionId envA) (startedAt envA))))
    as Hcur2 by apply (current_update_current _ _ _ Hcur1).
  assert (heap s2 !! a
          = Some (cancel (createSyncSession (sessionId envA) (startedAt envA))))
    as Ha2.
  { subst s2 s1. unfold update_current. cbn.
    rewrite lookup_alter_eq, lookup_insert_eq. reflexivity. }
  assert (a <> b) as Hab.
  { intros E. pose proof (new_address_is_new s2) as Hnew. fold b in Hnew.
    rewrite <- E, Ha2 in Hnew. discriminate. }
  exists a, s1, s2, (map (fun tab => StopScraping tab.1) found), b, s3, s4.
  conjuncts.
  - apply startSync_enter_idle, Hidle.
  - unfold cancelSync. rewrite (current_active _ _ Hcur1). reflexivity.
  - apply startSync_enter_idle. rewrite (current_active _ _ Hcur2). reflexivity.
  - unfold startSync_resume. rewrite Htab, Hstart. reflexivity.
  - exact Hab.
  - subst s4. rewrite (update_current_other _ s3 a b eq_refl Hab).
    subst s3. cbn [heap]. rewrite lookup_insert_ne by congruence. exact Ha2.
  - subst s4.
    apply (current_update_current (fail_with message (finishedAt envA)) s3
             (createSyncSession (sessionId envB) (startedAt envB))).
    apply current_after_insert.
Qed.

Lemma late_failure_closes_the_next_session_witness :
  exists a s1 s2 events b s3 s4,
    startSync_enter (silent_env 100 130 "sync_a") new_service = inr (a, s1)
    /\ cancelSync 110 (Some [(5, Stopped)]) s1 = (true, s2, events)
    /\ startSync_enter (good_env 120 140 "sync_b") s2 = inr (b, s3)
    /\ startSync_resume (silent_env 100 130 "sync_a") a s3
       = (Throws "Scraping initiation failed: Failed to start scraping", s4)
    /\ a <> b
    /\ heap s4 !! a
       = Some (mkSession "sync_a" 100 (Some 110) ERROR true
                 (Some "Cancelled by user"%string) None)
    /\ current s4
       = Some (mkSession "sync_b" 120 (Some 130) INITIALIZING true
                 (Some "Scraping initiation failed: Failed to start scraping"%string)
                 None).
Proof.
  exact (late_failure_closes_the_next_session
           (silent_env 100 130 "sync_a") (good_env 120 140 "sync_b") new_service
           5 "Scraping initiation failed: Failed to start scraping" 110
           [(5, Stopped)] eq_refl eq_refl eq_refl).
Defined.

Lemma getSyncStats_update_current (f : Session -> Session) (s : Service) :
  getSyncStats (update_current f s) = getSyncStats s.
Proof.
  unfold getSyncStats. destruct (update_current_keeps f s) as (_ & _ & E).
  now rewrite E.
Qed.

(** X30. Only a completion counts as a sync. [handleSyncCompletion] adds
    one to [totalSyncs] and one to either [successfulSyncs] or
    [failedSyncs], so stored counts that add up still add up. A failure
    reported through [handleSyncError] adds one to [failedSyncs] and
    leaves [totalSyncs] alone, after which they no longer add up. *)
Theorem only_completion_counts_a_sync
    (t : Z) (date data message : string) (posts : option Z)
    (s : Service) (session : Session) :
  current s = Some session ->
  let c := getSyncStats s in
  let done := getSyncStats (handleSyncCompletion t date data posts s) in
  let failed := getSyncStats (handleSyncError t date message s) in
  totalSyncs done = totalSyncs c + 1
  /\ successfulSyncs done + failedSyncs done
     = successfulSyncs c + failedSyncs c + 1
  /\ (stats_add_up c -> stats_add_up done)
  /\ totalSyncs failed = totalSyncs c
  /\ successfulSyncs failed = successfulSyncs c
  /\ failedSyncs failed = failedSyncs c + 1
  /\ (stats_add_up c -> ~ stats_add_up failed).
Proof.
  intros Hcur c done failed.
  assert (totalSyncs done = totalSyncs c + 1
          /\ successfulSyncs done + failedSyncs done
             = successfulSyncs c + failedSyncs c + 1) as [Ht Hs].
  { subst done. unfold handleSyncCompletion. rewrite Hcur. cbv zeta.
    rewrite getSyncStats_update_current. fold c.
    destruct (String.eqb _ ""); unfold updateSyncStats;
      rewrite getSyncStats_update_current; fold c; cbn; split; lia. }
  assert (totalSyncs failed = totalSyncs c
          /\ successfulSyncs failed = successfulSyncs c
          /\ failedSyncs failed = failedSyncs c + 1) as (Ft & Fs & Ff).
  { subst failed. unfold handleSyncError. rewrite Hcur. cbv zeta.
    rewrite getSyncStats_update_current. fold c.
    unfold updateSyncStats. rewrite getSyncStats_update_current. fold c.
    cbn. auto. }
  unfold stats_add_up. conjuncts; try assumption; intros; lia.
Qed.

Lemma only_completion_counts_a_sync_witness :
  let c := getSyncStats three_sessions in
  let done := getSyncStats (handleSyncCompletion 400 "2024-01-02" "done" None
                              three_sessions) in
  let failed := getSyncStats (handleSyncError 400 "2024-01-02" "feed not found"
                                three_sessions) in
  (totalSyncs c, successfulSyncs c, failedSyncs c) = (3, 2, 1)
  /\ totalSyncs done = 4 /\ stats_add_up done
  /\ totalSyncs failed = 3 /\ failedSyncs failed = 2.
Proof.
  pose proof (only_completion_counts_a_sync 400 "2024-01-02" "done"
                "feed not found" None three_sessions
                (mkSession "sync_c" 300 (Some 305) INITIALIZING true None
                   (Some "success"%string))
                eq_refl) as H.
  cbv zeta in H. destruct H as (H1 & _ & H3 & H4 & _ & H6 & _).
  cbv zeta. conjuncts.
  - reflexivity.
  - exact H1.
  - apply H3. reflexivity.
  - exact H4.
  - exact H6.
Defined.

End SyncServiceFacts.
